(** * reg.py: tile registration and mosaic compositing

    A shallow embedding of [reg.py] and the properties of its geometry,
    caching and compositing code.

    Conventions of the embedding.
    - A numpy [float64] is an exact rational [Q]; a numpy or Python integer is
      a [Z]; a length is a [nat].  Rounding error, NaN and infinities of the
      floating-point format are outside the model.
    - A length-2 numpy array (a (y, x) pair) is a pair; a 2-D array is a shape
      and an element function; a slice of an array that is assigned through
      is a window into its base array.
    - A Python exception is the [Raise] case of [result].
    - A tile (series) index is a [nat].  A physical pixel size of 0, for
      which numpy computes infinite or NaN positions, is outside the model.
    - The planes read through a [Reader] are recorded in a list that the
      aligners thread next to their own state.
    - Library calls are parameters: the plane reader of [bioformats] is a
      field of [Reader], and [scipy.ndimage.shift], [skimage.filters.laplace],
      [skimage.feature.register_translation] and the rescaling of
      [skimage.util.dtype.convert] are the fields of the class [Library].
      The checks that [convert] makes on a float image before it rescales
      it, and that make it raise, are written out in [dtype_convert]. *)

From Stdlib Require Import ZArith QArith Qround Qminmax Qabs Lia Lqa.
From Stdlib Require Import String List SetoidList SetoidPermutation.
From stdpp Require Import gmap list.

Local Open Scope Z_scope.

(** ** Exceptions *)

(** The exceptions of the code.  The [KeyError] of a cache miss is caught
    where it is raised (lines 103-106), so it is modelled as the [None] of a
    lookup. *)
Inductive exn : Type :=
| ValueError (msg : string)
| IndexError.

Inductive result (A : Type) : Type :=
| Ok (a : A)
| Raise (e : exn).
Arguments Ok {A} a.
Arguments Raise {A} e.

#[global] Instance result_ret : MRet result := fun A a => Ok a.
#[global] Instance result_bind : MBind result := fun A B k r =>
  match r with
  | Ok a => k a
  | Raise e => Raise e
  end.

(** ** Length-2 arrays *)

Definition vec2 (A : Type) : Type := (A * A)%type.

Definition vmap {A B} (f : A -> B) (v : vec2 A) : vec2 B := (f v.1, f v.2).
Definition vzip {A B C} (f : A -> B -> C) (u : vec2 A) (v : vec2 B) : vec2 C :=
  (f u.1 v.1, f u.2 v.2).
(** Python's [any] over a length-2 boolean array. *)
Definition vany (v : vec2 bool) : bool := v.1 || v.2.
(** [v[d]] for [d] in [range(2)]. *)
Definition axis {A} (d : nat) (v : vec2 A) : A :=
  match d with O => v.1 | _ => v.2 end.

Definition vadd : vec2 Q -> vec2 Q -> vec2 Q := vzip Qplus.
Definition vsub : vec2 Q -> vec2 Q -> vec2 Q := vzip Qminus.
Definition vdiv : vec2 Q -> vec2 Q -> vec2 Q := vzip Qdiv.
Definition vneg : vec2 Q -> vec2 Q := vmap Qopp.
Definition vabs : vec2 Q -> vec2 Q := vmap Qabs.
Definition vmax : vec2 Q -> vec2 Q -> vec2 Q := vzip Qmax.
Definition vmin : vec2 Q -> vec2 Q -> vec2 Q := vzip Qmin.
Definition vinject : vec2 Z -> vec2 Q := vmap inject_Z.

(** [Q] comparisons as booleans. *)
Definition Qltb (x y : Q) : bool := negb (Qle_bool y x).

(** Conversion of a float to an integer, [astype('i8')] or [astype(int)]:
    the fraction is dropped, towards zero. *)
Definition Qtrunc (q : Q) : Z := Z.quot (Qnum q) (Zpos (Qden q)).

(** [a.max(axis=0)] and [a.min(axis=0)] of an (n, 2) array given by its rows;
    numpy refuses to reduce an empty array. *)
Definition amax0 (rows : list (vec2 Q)) : result (vec2 Q) :=
  match rows with
  | [] => Raise (ValueError "zero-size array to reduction operation maximum which has no identity")
  | r :: rs => Ok (fold_left vmax rs r)
  end.

Definition amin0 (rows : list (vec2 Q)) : result (vec2 Q) :=
  match rows with
  | [] => Raise (ValueError "zero-size array to reduction operation minimum which has no identity")
  | r :: rs => Ok (fold_left vmin rs r)
  end.

(** [np.vstack]: stacking no rows is an error. *)
Definition vstack {A} (rows : list A) : result (list A) :=
  match rows with
  | [] => Raise (ValueError "need at least one array to concatenate")
  | _ => Ok rows
  end.

(** [a[i]] on a sequence, for an index that is not negative. *)
Definition getitem {A} (l : list A) (i : nat) : result A :=
  match l !! i with
  | Some a => Ok a
  | None => Raise IndexError
  end.

(** [len(set(l))] for a list of floats: the number of distinct values. *)
Definition Qmem (x : Q) (s : list Q) : bool := existsb (Qeq_bool x) s.
Definition set_add (s : list Q) (x : Q) : list Q :=
  if Qmem x s then s else x :: s.
Definition set_of (l : list Q) : list Q := fold_left set_add l [].
Definition len_set (l : list Q) : Z := Z.of_nat (length (set_of l)).

(** ** Metadata *)

(** What the OME-XML document holds for one image of the series: the pixel
    counts, the physical pixel size and the stage position of plane 0. *)
Record image : Type := Image {
  SizeY : Z;
  SizeX : Z;
  PhysicalSizeY : Q;
  PhysicalSizeX : Q;
  PositionY : Q;
  PositionX : Q
}.

Record OMEXML : Type := { images : list image }.

Definition image_count (o : OMEXML) : nat := length (images o).

Module Metadata.

(** The methods that read only [self._metadata] take the document itself:
    [__init__] calls [tile_size] before [self.size] exists. *)
Record t : Type := Build { _metadata : OMEXML; size : vec2 Z }.

Definition num_images (m : OMEXML) : nat := image_count m.

Definition pixel_size (m : OMEXML) : result (vec2 Q) :=
  px_node ← getitem (images m) 0;
  Ok (PhysicalSizeY px_node, PhysicalSizeX px_node).

Definition tile_position (m : OMEXML) (i : nat) : result (vec2 Q) :=
  plane ← getitem (images m) i;
  let position_microns := (PositionY plane, PositionX plane) in
  ps ← pixel_size m;
  let position_pixels := vdiv position_microns ps in
  Ok position_pixels.

Definition tile_size (m : OMEXML) (i : nat) : result (vec2 Z) :=
  pixels ← getitem (images m) i;
  Ok (SizeY pixels, SizeX pixels).

Definition positions (m : OMEXML) : result (list (vec2 Q)) :=
  rows ← mapM (tile_position m) (seq 0 (num_images m));
  vstack rows.

Definition grid_dimensions (m : OMEXML) : result (vec2 Z) :=
  pos ← positions m;
  let shape := (len_set (map (axis 0) pos), len_set (map (axis 1) pos)) in
  if negb (shape.1 * shape.2 =? Z.of_nat (num_images m))
  then Raise (ValueError "Series positions do not form a grid")
  else Ok shape.

Definition centers (self : t) : result (list (vec2 Q)) :=
  pos ← positions (_metadata self);
  Ok (map (fun p => vadd p (vzip Qdiv (vinject (size self)) (2%Q, 2%Q))) pos).

Definition origin (m : OMEXML) : result (vec2 Q) :=
  pos ← positions m;
  amin0 pos.

Definition vne (u v : vec2 Z) : vec2 bool := vzip (fun a b => negb (a =? b)) u v.

Definition __init__ (m : OMEXML) : result t :=
  s0 ← tile_size m 0;
  mismatch ← mapM (fun i => s ← tile_size m i; Ok (vany (vne s s0)))
                  (seq 1 (num_images m - 1));
  if existsb id mismatch
  then Raise (ValueError "Image series must all have the same dimensions")
  else Ok {| _metadata := m; size := s0 |}.

End Metadata.

(** ** 2-D arrays *)

(** A 2-D numpy array: its shape and its elements.  [item a y x] is read only
    for [y < nrows a] and [x < ncols a]. *)
Record ndarray (A : Type) : Type := NdArray {
  nrows : nat;
  ncols : nat;
  item : nat -> nat -> A
}.
Arguments NdArray {A} nrows ncols item.
Arguments nrows {A} _.
Arguments ncols {A} _.
Arguments item {A} _ _ _.

Definition shape {A} (a : ndarray A) : nat * nat := (nrows a, ncols a).

(** The elements of an array as nested lists. *)
Definition to_rows {A} (a : ndarray A) : list (list A) :=
  map (fun y => map (fun x => item a y x) (seq 0 (ncols a))) (seq 0 (nrows a)).

Definition amap {A B} (f : A -> B) (a : ndarray A) : ndarray B :=
  NdArray (nrows a) (ncols a) (fun y x => f (item a y x)).

(** Python's bounds of [s[start:stop]] on an axis of length [n]: a negative
    bound counts from the end, and both are clamped to [0, n]; an omitted
    bound is the end of the axis. *)
Definition slice_bound (n : nat) (i : Z) : nat :=
  Z.to_nat (if i <? 0 then Z.max 0 (i + Z.of_nat n) else Z.min i (Z.of_nat n)).

Definition slice_start (n : nat) (start : option Z) : nat :=
  match start with Some i => slice_bound n i | None => O end.

Definition slice_stop (n : nat) (stop : option Z) : nat :=
  match stop with Some i => slice_bound n i | None => n end.

(** An integer index on an axis of length [n]. *)
Definition index_of (n : nat) (i : Z) : result nat :=
  if (- Z.of_nat n <=? i) && (i <? Z.of_nat n)
  then Ok (Z.to_nat (if i <? 0 then i + Z.of_nat n else i))
  else Raise IndexError.

(** A rectangular window of a base array: where it starts and its shape.
    Basic slicing of an array gives such a window; reading through it reads
    the base, and assigning through it writes the base. *)
Record window : Type := Window { wy : nat; wx : nat; wh : nat; ww : nat }.

Definition whole {A} (a : ndarray A) : window := Window 0 0 (nrows a) (ncols a).

(** [v[ys:ye, xs:xe]] for a window [v]. *)
Definition sub (v : window) (ys ye xs xe : option Z) : window :=
  let y0 := slice_start (wh v) ys in
  let x0 := slice_start (ww v) xs in
  Window (wy v + y0) (wx v + x0)
         (slice_stop (wh v) ye - y0) (slice_stop (ww v) xe - x0).

(** [v[i, xs:xe]] and [v[ys:ye, j]]: an integer index on one axis. *)
Definition sub_row (v : window) (i : Z) (xs xe : option Z) : result window :=
  y ← index_of (wh v) i;
  let r := sub v None None xs xe in
  Ok (Window (wy v + y) (wx r) 1 (ww r)).

Definition sub_col (v : window) (ys ye : option Z) (j : Z) : result window :=
  x ← index_of (ww v) j;
  let r := sub v ys ye None None in
  Ok (Window (wy r) (wx v + x) (wh r) 1).

Definition inside (v : window) (y x : nat) : bool :=
  (wy v <=? y)%nat && (y <? wy v + wh v)%nat &&
  (wx v <=? x)%nat && (x <? wx v + ww v)%nat.

(** The elements seen through a window. *)
Definition view {A} (a : ndarray A) (v : window) : ndarray A :=
  NdArray (wh v) (ww v) (fun y x => item a (wy v + y)%nat (wx v + x)%nat).

(** [a[ys:ye, xs:xe]]. *)
Definition getslice {A} (a : ndarray A) (ys ye xs xe : option Z) : ndarray A :=
  view a (sub (whole a) ys ye xs xe).

(** [v[:, :] = src]: the base array after the assignment through [v], for a
    source of the window's shape. *)
Definition assign {A} (a : ndarray A) (v : window) (src : ndarray A) : ndarray A :=
  NdArray (nrows a) (ncols a)
          (fun y x => if inside v y x
                      then item src (y - wy v)%nat (x - wx v)%nat
                      else item a y x).

(** [np.flipud], [np.clip] and [np.maximum]. *)
Definition flipud {A} (a : ndarray A) : ndarray A :=
  NdArray (nrows a) (ncols a) (fun y x => item a (nrows a - 1 - y)%nat x).

Definition Qclip (lo hi x : Q) : Q := Qmin (Qmax x lo) hi.
Definition clip (a : ndarray Q) (lo hi : Q) : ndarray Q := amap (Qclip lo hi) a.

Definition maximum (a b : ndarray Z) : ndarray Z :=
  NdArray (nrows a) (ncols a) (fun y x => Z.max (item a y x) (item b y x)).

(** [crop_like], lines 248-253. *)
Definition crop_like {A B} (img : ndarray A) (target : ndarray B) : ndarray A :=
  let img :=
    if (nrows target <? nrows img)%nat
    then getslice img None (Some (Z.of_nat (nrows target))) None None
    else img in
  let img :=
    if (ncols target <? ncols img)%nat
    then getslice img None None None (Some (Z.of_nat (ncols target)))
    else img in
  img.

(** ** Reader *)

(** [ir c series] stands for [bioformats.ImageReader.read(c=c, series=series)]. *)
Record Reader : Type := {
  metadata : Metadata.t;
  ir : nat -> nat -> ndarray Q
}.

(** Computations that read image planes and may raise: the state they
    thread holds, next to the object's own mutable fields, the list of
    (series, channel) planes read so far, newest first.  A computation that
    raises gives no final state. *)
Definition io (S A : Type) : Type := S -> result (A * S).

#[global] Instance io_ret {S} : MRet (io S) := fun A a s => Ok (a, s).
#[global] Instance io_bind {S} : MBind (io S) := fun A B k m s =>
  match m s with
  | Ok (a, s') => k a s'
  | Raise e => Raise e
  end.
Definition io_lift {S A} (r : result A) : io S A :=
  fun s => match r with Ok a => Ok (a, s) | Raise e => Raise e end.
Definition io_gets {S A} (f : S -> A) : io S A := fun s => Ok (f s, s).
Definition io_modify {S} (f : S -> S) : io S unit := fun s => Ok (tt, f s).

(** [Reader.read], lines 89-90; the read is recorded by [log]. *)
Definition Reader_read {S} (log : nat * nat -> S -> S) (self : Reader)
    (series c : nat) : io S (ndarray Q) :=
  _ ← io_modify (log (series, c));
  mret (flipud (ir self c series)).

(** ** Library functions *)

(** The unsigned integer types of a canvas. *)
Inductive uint_dtype : Type := uint8 | uint16 | uint32 | uint64.

Definition bits (dt : uint_dtype) : Z :=
  match dt with uint8 => 8 | uint16 => 16 | uint32 => 32 | uint64 => 64 end.

(** [np.iinfo(dt).max]. *)
Definition iinfo_max (dt : uint_dtype) : Z := 2 ^ bits dt - 1.

(** [scipy.ndimage.shift], [skimage.filters.laplace],
    [skimage.feature.register_translation] (which returns the shift, the error
    and the phase difference) and the rescaling that
    [skimage.util.dtype.convert] applies to an image it accepts. *)
Class Library : Type := {
  ndimage_shift : ndarray Q -> vec2 Q -> ndarray Q;
  laplace : ndarray Q -> ndarray Q;
  register_translation : ndarray Q -> ndarray Q -> Z -> vec2 Q * Q * Q;
  convert : ndarray Q -> uint_dtype -> ndarray Z
}.

(** What the code relies on: the filters and the conversion keep the shape of
    their input, and a converted image holds values of the target type. *)
Class LibraryLaws (L : Library) : Prop := {
  ndimage_shift_shape img s : shape (ndimage_shift img s) = shape img;
  laplace_shape img : shape (laplace img) = shape img;
  convert_shape img dt : shape (convert img dt) = shape img;
  convert_range img dt y x : 0 <= item (convert img dt) y x <= iinfo_max dt
}.

(** Python's [any] over the elements of an array. *)
Definition aany {A} (p : A -> bool) (a : ndarray A) : bool :=
  existsb (fun y => existsb (fun x => p (item a y x)) (seq 0 (ncols a)))
          (seq 0 (nrows a)).

(** The [ValueError] of [np.min] on an array without elements. *)
Definition zero_size_error : exn :=
  ValueError
    "zero-size array to reduction operation minimum which has no identity".

(** [skimage.util.dtype.convert] of a float image to an unsigned integer
    type.  Before it rescales a float image, [convert] tests
    [np.min(image) < -1.0 or np.max(image) > 1.0]: numpy refuses to reduce
    an array without elements, so that an empty image raises [ValueError],
    and an image with a value outside [-1, 1] is refused with a
    [ValueError] of [convert]'s own. *)
Definition dtype_convert `{Library} (img : ndarray Q) (dt : uint_dtype)
  : result (ndarray Z) :=
  if (nrows img =? 0)%nat || (ncols img =? 0)%nat
  then Raise zero_size_error
  else if aany (fun v => Qltb v (-1)) img || aany (fun v => Qltb 1 v) img
  then Raise (ValueError "Images of type float must be between -1 and 1.")
  else Ok (convert img dt).

(** [whiten], lines 198-206. *)
Definition whiten `{Library} (img : ndarray Q) : ndarray Q :=
  let img := laplace img in
  img.

(** ** EdgeAligner *)

Module EdgeAligner.

Record t : Type := Build {
  reader : Reader;
  max_shift : Q;
  _cache : gmap (nat * nat) (vec2 Q * Q)
}.

(** The aligner together with the planes read from its reader. *)
Record world : Type := World {
  self : t;
  planes_read : list (nat * nat)
}.

Definition __init__ (reader : Reader) : t :=
  {| reader := reader; max_shift := 5 # 100; _cache := ∅ |}.

Definition log_read (p : nat * nat) (w : world) : world :=
  {| self := self w; planes_read := p :: planes_read w |}.

Definition cache_store (key : nat * nat) (entry : vec2 Q * Q) (w : world) : world :=
  {| self := {| reader := reader (self w);
                max_shift := max_shift (self w);
                _cache := <[key := entry]> (_cache (self w)) |};
     planes_read := planes_read w |}.

(** [tuple(sorted((t1, t2)))]. *)
Definition sorted_pair (t1 t2 : nat) : nat * nat :=
  if (t2 <? t1)%nat then (t2, t1) else (t1, t2).

(** [intersection], lines 127-135. *)
Definition intersection (self : t) (t1 t2 : nat)
  : result (vec2 Q * vec2 Q * vec2 Z) :=
  let md := metadata (reader self) in
  pos ← Metadata.positions (Metadata._metadata md);
  c1 ← getitem pos t1;
  c2 ← getitem pos t2;
  let corners1 := [c1; c2] in
  let corners2 := map (fun c => vadd c (vinject (Metadata.size md))) corners1 in
  position ← amax0 corners1;
  far ← amin0 corners2;
  let shape := vmap Qceiling (vsub far position) in
  if vany (vmap (fun n => n <=? 0) shape)
  then Raise (ValueError "Tiles do not intersect")
  else
    match map (fun c => vsub c position) corners1 with
    | [offset1; offset2] => Ok (offset1, offset2, shape)
    | _ => Raise (ValueError "need more than 2 values to unpack")
    end.

Section WithLibrary.
Context `{L : Library}.

(** [crop], lines 137-144. *)
Definition crop (tile : nat) (offset : vec2 Q) (shape : vec2 Z)
  : io world (ndarray Q) :=
  r ← io_gets (fun w => reader (self w));
  img ← Reader_read log_read r tile 0;
  let img := getslice (ndimage_shift img offset)
                      None (Some shape.1) None (Some shape.2) in
  let img := clip img 0 1 in
  mret img.

(** [overlap], lines 146-150. *)
Definition overlap (t1 t2 : nat) : io world (ndarray Q * ndarray Q) :=
  s ← io_gets self;
  '(offset1, offset2, shape) ← io_lift (intersection s t1 t2);
  img1 ← crop t1 offset1 shape;
  img2 ← crop t2 offset2 shape;
  mret (img1, img2).

(** The outlier test of line 118 and the reset of lines 119-120. *)
Definition exceeds (self : t) (shift : vec2 Q) : bool :=
  let size := vinject (Metadata.size (metadata (reader self))) in
  vany (vzip Qltb (vmap (Qmult (max_shift self)) size) (vabs shift)).

(** [register], lines 100-125.  The arrays are values here: [shift[:] = 0]
    writes the array of the estimate before it is stored, and [-shift]
    builds a new array, so no stored array is written. *)
Definition register (t1 t2 : nat) : io world (vec2 Q * Q) :=
  let key := sorted_pair t1 t2 in
  cached ← io_gets (fun w => _cache (self w) !! key);
  '(shift, error) ←
    match cached with
    | Some entry => mret entry
    | None =>
        '(img1, img2) ← overlap t1 t2;
        let img1 := whiten img1 in
        let img2 := whiten img2 in
        let '(shift, error, _) := register_translation img1 img2 10 in
        s ← io_gets self;
        let '(shift, error) :=
          if exceeds s shift then ((0, 0), 1)%Q else (shift, error) in
        _ ← io_modify (cache_store key (shift, error));
        mret (shift, error)
    end;
  let shift := if (t2 <? t1)%nat then vneg shift else shift in
  mret (shift, error).

End WithLibrary.

End EdgeAligner.

(** ** LayerAligner *)

Module LayerAligner.

Record t : Type := Build {
  reader : Reader;
  reference_image : ndarray Q;
  positions : list (vec2 Z)
}.

(** Lines 182-186; [astype(int)] drops the fraction of each coordinate. *)
Definition __init__ (reader : Reader) (reference_image : ndarray Q) : result t :=
  let md := Metadata._metadata (metadata reader) in
  pos ← Metadata.positions md;
  origin ← Metadata.origin md;
  Ok {| reader := reader;
        reference_image := reference_image;
        positions := map (fun p => vmap Qtrunc (vsub p origin)) pos |}.

Definition log_read (p : nat * nat) (log : list (nat * nat)) : list (nat * nat) :=
  p :: log.

(** [register], lines 188-195, threading the list of planes read. *)
Definition register `{Library} (self : t) (tile : nat)
  : io (list (nat * nat)) (vec2 Q * Q) :=
  img ← Reader_read log_read (reader self) tile 0;
  '(sy, sx) ← io_lift (getitem (positions self) tile);
  let '(h, w) := shape img in
  let reftile :=
    whiten (getslice (reference_image self)
                     (Some sy) (Some (sy + Z.of_nat h))
                     (Some sx) (Some (sx + Z.of_nat w))) in
  let img := whiten (crop_like img reftile) in
  let '(shift, error, _) := register_translation reftile img 10 in
  p ← io_lift (getitem (positions self) tile);
  mret (vadd (vinject p) shift, error).

End LayerAligner.

(** ** paste *)

(** A canvas: an array of an unsigned integer type. *)
Record uint_array : Type := UintArray {
  dtype : uint_dtype;
  data : ndarray Z
}.

(** [np.modf]: the fractional and the integral part of a float, each with
    the sign of the float. *)
Definition modf (q : Q) : Q * Q :=
  ((q - inject_Z (Qtrunc q))%Q, inject_Z (Qtrunc q)).

(** Lines 216-217: [pos_f] and [(yi, xi)]. *)
Definition split_position (pos : vec2 Q) : vec2 Q * vec2 Z :=
  let pos_f := vmap (fun q => (modf q).1) pos in
  let pos_i := vmap (fun q => (modf q).2) pos in
  (pos_f, vmap Qtrunc pos_i).

(** Lines 219-224: clip img to the edges of the mosaic. *)
Definition clip_to_mosaic {A} (img : ndarray A) (yi xi : Z) : ndarray A * Z * Z :=
  let '(img, yi) :=
    if yi <? 0 then (getslice img (Some (- yi)) None None None, 0) else (img, yi) in
  let '(img, xi) :=
    if xi <? 0 then (getslice img None None (Some (- xi)) None, 0) else (img, xi) in
  (img, yi, xi).

(** [v[:, :] = src] on a canvas. *)
Definition assign_data (target : uint_array) (v : window) (src : ndarray Z) : uint_array :=
  {| dtype := dtype target; data := assign (data target) v src |}.

(** [v += k] through a window of a canvas: the sum wraps around in the
    unsigned type. *)
Definition iadd (target : uint_array) (v : window) (k : Z) : uint_array :=
  assign_data target v
    (amap (fun p => (p + k) mod 2 ^ bits (dtype target)) (view (data target) v)).

(** Lines 229-234: the canvas after these lines, and [target_slice] or the
    exception of [convert], which leaves the canvas as it was. *)
Definition composite `{Library} (target : uint_array) (img : ndarray Q)
    (yi xi : Z) (pos_f : vec2 Q) : uint_array * result window :=
  let target_slice :=
    sub (whole (data target))
        (Some yi) (Some (yi + Z.of_nat (nrows img)))
        (Some xi) (Some (xi + Z.of_nat (ncols img))) in
  let img := crop_like img (view (data target) target_slice) in
  let img := ndimage_shift img pos_f in
  let img := clip img 0 1 in
  match dtype_convert img (dtype target) with
  | Ok img =>
      (assign_data target target_slice
         (maximum (view (data target) target_slice) img),
       Ok target_slice)
  | Raise e => (target, Raise e)
  end.

(** One statement [w += 6000] of lines 241-244, where taking the window [w]
    may raise. *)
Definition brighten (w : result window) (state : uint_array * result unit)
  : uint_array * result unit :=
  match state with
  | (target, Ok _) =>
      match w with
      | Ok w => (iadd target w 6000, Ok tt)
      | Raise e => (target, Raise e)
      end
  | (target, Raise e) => (target, Raise e)
  end.

(** Lines 241-245: the outline.  The array that [np.clip] returns on line
    245 is not stored. *)
Definition outline (target : uint_array) (target_slice : window)
  : uint_array * result unit :=
  let s := (target, Ok tt) in
  let s := brighten (sub_row target_slice 0 None None) s in
  let s := brighten (sub_row target_slice (-1) None None) s in
  let s := brighten (sub_col target_slice (Some 1) (Some (-1)) 0) s in
  let s := brighten (sub_col target_slice (Some 1) (Some (-1)) (-1)) s in
  let _clipped :=
    amap (fun p => Z.min (Z.max p 0) (iinfo_max (dtype s.1)))
         (view (data s.1) target_slice) in
  s.

(** [paste], lines 209-245: the canvas after the call, and how the call
    ended. *)
Definition paste `{Library} (target : uint_array) (img : ndarray Q)
    (pos : vec2 Q) (debug : bool) : uint_array * result unit :=
  let '(pos_f, (yi, xi)) := split_position pos in
  let '(img, yi, xi) := clip_to_mosaic img yi xi in
  match composite target img yi xi pos_f with
  | (target, Ok target_slice) =>
      if debug then outline target target_slice else (target, Ok tt)
  | (target, Raise e) => (target, Raise e)
  end.

(** * Properties *)

(** ** Numbers *)

Lemma Qltb_lt (x y : Q) : Qltb x y = true <-> (x < y)%Q.
Proof.
  unfold Qltb. rewrite negb_true_iff, <- not_true_iff_false, Qle_bool_iff.
  split; [apply Qnot_le_lt | apply Qlt_not_le].
Qed.

(** *** The number of distinct values *)

Section DistinctValues.

Lemma Qmem_InA (x : Q) (s : list Q) : Qmem x s = true <-> InA Qeq x s.
Proof.
  unfold Qmem. rewrite existsb_exists, InA_alt.
  split; intros [y [Hy Hxy]]; exists y.
  - split; [apply Qeq_bool_iff, Hxy | exact Hy].
  - split; [exact Hxy | apply Qeq_bool_iff, Hy].
Qed.

Lemma set_add_NoDupA (s : list Q) (x : Q) :
  NoDupA Qeq s -> NoDupA Qeq (set_add s x).
Proof.
  intros Hs. unfold set_add. destruct (Qmem x s) eqn:E; [exact Hs|].
  constructor; [|exact Hs].
  intros Hin. apply Qmem_InA in Hin. congruence.
Qed.

Lemma set_add_InA (s : list Q) (x y : Q) :
  InA Qeq y (set_add s x) <-> (y == x)%Q \/ InA Qeq y s.
Proof.
  unfold set_add. destruct (Qmem x s) eqn:E.
  - apply Qmem_InA in E. split; [tauto|].
    intros [Hyx|H]; [|exact H].
    eapply InA_eqA; [apply Q_Setoid | symmetry; exact Hyx | exact E].
  - rewrite InA_cons. tauto.
Qed.

Lemma fold_set_add (l s : list Q) :
  NoDupA Qeq s ->
  NoDupA Qeq (fold_left set_add l s) /\
  (forall y, InA Qeq y (fold_left set_add l s) <-> InA Qeq y s \/ InA Qeq y l).
Proof.
  revert s. induction l as [|x l IH]; intros s Hs; simpl.
  - split; [exact Hs|]. intros y. rewrite InA_nil. tauto.
  - destruct (IH (set_add s x) (set_add_NoDupA s x Hs)) as [Hnd Hin].
    split; [exact Hnd|]. intros y.
    rewrite Hin, set_add_InA, InA_cons. tauto.
Qed.

Lemma set_of_NoDupA (l : list Q) : NoDupA Qeq (set_of l).
Proof. apply (fold_set_add l []). constructor. Qed.

Lemma set_of_InA (l : list Q) (y : Q) : InA Qeq y (set_of l) <-> InA Qeq y l.
Proof.
  unfold set_of. destruct (fold_set_add l [] (NoDupA_nil _)) as [_ H].
  rewrite H, InA_nil. tauto.
Qed.

(** A list whose values are those of a duplicate-free list [ys] has
    [length ys] distinct values. *)
Lemma len_set_distinct (l ys : list Q) :
  NoDupA Qeq ys ->
  (forall y, InA Qeq y l <-> InA Qeq y ys) ->
  len_set l = Z.of_nat (length ys).
Proof.
  intros Hys Hl. unfold len_set. f_equal.
  destruct (SetoidPermutation.NoDupA_equivlistA_decompose
              Q_Setoid (set_of_NoDupA l) Hys) as [l' [Hperm Heql]].
  { intros y. rewrite set_of_InA. apply Hl. }
  rewrite (Permutation.Permutation_length Hperm).
  apply (eqlistA_length Heql).
Qed.

End DistinctValues.

Lemma mapM_result_length {A B} (f : A -> result B) (l : list A) (rows : list B) :
  mapM f l = Ok rows -> length rows = length l.
Proof.
  revert rows. induction l as [|a l IH]; intros rows; simpl.
  - intros [= <-]. reflexivity.
  - destruct (f a) as [b|e]; simpl; [|discriminate].
    destruct (mapM f l) as [bs|e]; simpl; [|discriminate].
    intros [= <-]. simpl. f_equal. apply IH. reflexivity.
Qed.

Module MetadataFacts.
Import Metadata.

Lemma positions_length (m : OMEXML) (pos : list (vec2 Q)) :
  positions m = Ok pos -> length pos = num_images m.
Proof.
  unfold positions. intros H.
  destruct (mapM (tile_position m) (seq 0 (num_images m))) as [rows|e] eqn:E;
    simpl in H; [|discriminate].
  apply mapM_result_length in E. rewrite length_seq in E.
  destruct rows; simpl in H; [discriminate|].
  injection H as <-. exact E.
Qed.

Lemma positions_nonempty (m : OMEXML) (pos : list (vec2 Q)) :
  positions m = Ok pos -> pos <> [].
Proof.
  unfold positions. intros H.
  destruct (mapM (tile_position m) (seq 0 (num_images m))) as [rows|e];
    simpl in H; [|discriminate].
  destruct rows; simpl in H; [discriminate|].
  injection H as <-. discriminate.
Qed.

(** The tiles lie on the grid [ys] x [xs]: row values [ys] and column
    values [xs] are pairwise different, every tile sits on a grid point,
    every grid point holds a tile, and there are as many tiles as points. *)
Definition on_grid (ys xs : list Q) (pos : list (vec2 Q)) : Prop :=
  NoDupA Qeq ys /\ NoDupA Qeq xs /\
  (forall p, In p pos -> InA Qeq p.1 ys /\ InA Qeq p.2 xs) /\
  (forall y x, In y ys -> In x xs ->
               exists p, In p pos /\ (p.1 == y)%Q /\ (p.2 == x)%Q) /\
  length pos = (length ys * length xs)%nat.

Lemma on_grid_rows (ys xs : list Q) (pos : list (vec2 Q)) :
  pos <> [] -> on_grid ys xs pos ->
  forall y, InA Qeq y (map (axis 0) pos) <-> InA Qeq y ys.
Proof.
  intros Hne (Hys & Hxs & Hin & Hall & Hlen) y. split.
  - rewrite InA_alt. intros [y' [Hy Hy']].
    apply in_map_iff in Hy' as [p [<- Hp]].
    eapply InA_eqA; [apply Q_Setoid | symmetry; exact Hy | apply (Hin p Hp)].
  - destruct pos as [|p0 pos']; [congruence|].
    destruct (Hin p0 (or_introl eq_refl)) as [_ Hx0].
    apply InA_alt in Hx0 as [x [_ Hx]].
    rewrite !InA_alt. intros [y' [Hy Hy']].
    destruct (Hall y' x Hy' Hx) as [p [Hp [Hp1 _]]].
    exists p.1. split; [rewrite Hy; symmetry; exact Hp1|].
    apply in_map_iff. exists p. split; [reflexivity | exact Hp].
Qed.

Lemma on_grid_cols (ys xs : list Q) (pos : list (vec2 Q)) :
  pos <> [] -> on_grid ys xs pos ->
  forall x, InA Qeq x (map (axis 1) pos) <-> InA Qeq x xs.
Proof.
  intros Hne (Hys & Hxs & Hin & Hall & Hlen) x. split.
  - rewrite InA_alt. intros [x' [Hx Hx']].
    apply in_map_iff in Hx' as [p [<- Hp]].
    eapply InA_eqA; [apply Q_Setoid | symmetry; exact Hx | apply (Hin p Hp)].
  - destruct pos as [|p0 pos']; [congruence|].
    destruct (Hin p0 (or_introl eq_refl)) as [Hy0 _].
    apply InA_alt in Hy0 as [y [_ Hy]].
    rewrite !InA_alt. intros [x' [Hx Hx']].
    destruct (Hall y x' Hy Hx') as [p [Hp [_ Hp2]]].
    exists p.2. split; [rewrite Hx; symmetry; exact Hp2|].
    apply in_map_iff. exists p. split; [reflexivity | exact Hp].
Qed.

(** Six tiles of 100 x 100 pixels in 2 rows and 3 columns, 90 pixels apart,
    with 0.5 micron pixels. *)
Definition tile_at (y x : Q) : image :=
  {| SizeY := 100; SizeX := 100;
     PhysicalSizeY := 1 # 2; PhysicalSizeX := 1 # 2;
     PositionY := y; PositionX := x |}.

Definition grid_2x3 : OMEXML :=
  {| images := [ tile_at 0 0; tile_at 0 45; tile_at 0 90;
                 tile_at 45 0; tile_at 45 45; tile_at 45 90 ] |}.

Lemma grid_point_found (pos : list (vec2 Q)) (y x : Q) :
  existsb (fun p : vec2 Q => Qeq_bool p.1 y && Qeq_bool p.2 x) pos = true ->
  exists p, In p pos /\ (p.1 == y)%Q /\ (p.2 == x)%Q.
Proof.
  rewrite existsb_exists. intros [p [Hp Hb]].
  apply andb_true_iff in Hb as [H1 H2].
  exists p. split; [exact Hp|].
  split; apply Qeq_bool_iff; assumption.
Qed.

Lemma grid_2x3_positions :
  positions grid_2x3 =
  Ok [ (0 / (1 # 2), 0 / (1 # 2)); (0 / (1 # 2), 45 / (1 # 2));
       (0 / (1 # 2), 90 / (1 # 2)); (45 / (1 # 2), 0 / (1 # 2));
       (45 / (1 # 2), 45 / (1 # 2)); (45 / (1 # 2), 90 / (1 # 2)) ]%Q.
Proof. reflexivity. Qed.

Lemma grid_2x3_on_grid (pos : list (vec2 Q)) :
  positions grid_2x3 = Ok pos -> on_grid [0; 90]%Q [0; 90; 180]%Q pos.
Proof.
  rewrite grid_2x3_positions. intros [= <-].
  repeat split.
  - repeat (constructor; [intros H; apply Qmem_InA in H; discriminate H|]).
    constructor.
  - repeat (constructor; [intros H; apply Qmem_InA in H; discriminate H|]).
    constructor.
  - repeat destruct H as [<-|H]; try contradiction;
      apply Qmem_InA; reflexivity.
  - repeat destruct H as [<-|H]; try contradiction;
      apply Qmem_InA; reflexivity.
  - intros y x Hy Hx. apply grid_point_found.
    repeat destruct Hy as [<-|Hy]; try contradiction;
      repeat destruct Hx as [<-|Hx]; try contradiction; reflexivity.
Qed.

(** C7. [grid_dimensions] raises its [ValueError] whenever the product of
    the numbers of distinct row and column positions differs from the
    number of tiles, and returns these two numbers otherwise; for tiles on
    a rectangular grid of [ys] by [xs] positions it returns
    [(length ys, length xs)]. *)
Theorem grid_dimensions_spec (m : OMEXML) (pos : list (vec2 Q))
    (Hpos : positions m = Ok pos) :
  let shape := (len_set (map (axis 0) pos), len_set (map (axis 1) pos)) in
  (shape.1 * shape.2 <> Z.of_nat (num_images m) ->
     grid_dimensions m = Raise (ValueError "Series positions do not form a grid")) /\
  (shape.1 * shape.2 = Z.of_nat (num_images m) ->
     grid_dimensions m = Ok shape) /\
  (forall ys xs, on_grid ys xs pos ->
     grid_dimensions m = Ok (Z.of_nat (length ys), Z.of_nat (length xs))).
Proof.
  intros shape.
  assert (Hgd : grid_dimensions m =
            if negb (shape.1 * shape.2 =? Z.of_nat (num_images m))
            then Raise (ValueError "Series positions do not form a grid")
            else Ok shape).
  { unfold grid_dimensions. rewrite Hpos. reflexivity. }
  rewrite Hgd. clear Hgd.
  split; [|split].
  - intros Hne. apply Z.eqb_neq in Hne. rewrite Hne. reflexivity.
  - intros Heq. apply Z.eqb_eq in Heq. rewrite Heq. reflexivity.
  - intros ys xs Hgrid.
    pose proof (positions_nonempty m pos Hpos) as Hne.
    pose proof (positions_length m pos Hpos) as Hlen.
    assert (H1 : shape.1 = Z.of_nat (length ys)).
    { apply len_set_distinct; [apply Hgrid | apply (on_grid_rows ys xs pos Hne Hgrid)]. }
    assert (H2 : shape.2 = Z.of_nat (length xs)).
    { apply len_set_distinct; [apply Hgrid | apply (on_grid_cols ys xs pos Hne Hgrid)]. }
    destruct Hgrid as (_ & _ & _ & _ & Hcard).
    assert (Heq : shape.1 * shape.2 = Z.of_nat (num_images m)) by nia.
    apply Z.eqb_eq in Heq. rewrite Heq. cbn [negb].
    rewrite (surjective_pairing shape), H1, H2. reflexivity.
Qed.

Lemma grid_dimensions_spec_witness :
  exists pos, positions grid_2x3 = Ok pos /\ grid_dimensions grid_2x3 = Ok (2, 3).
Proof.
  eexists. split; [apply grid_2x3_positions|].
  apply (proj2 (proj2 (grid_dimensions_spec grid_2x3 _ grid_2x3_positions))
           [0; 90]%Q [0; 90; 180]%Q).
  apply grid_2x3_on_grid, grid_2x3_positions.
Defined.

End MetadataFacts.

(** *** The overlap rectangle *)

Module IntersectionFacts.
Import EdgeAligner.

(** The pixel-coordinate point [q] lies in the tile at [p]. *)
Definition in_tile (size : vec2 Z) (p q : vec2 Q) : Prop :=
  (p.1 <= q.1 /\ q.1 < p.1 + inject_Z size.1)%Q /\
  (p.2 <= q.2 /\ q.2 < p.2 + inject_Z size.2)%Q.

Section Geometry.
Variable self : t.
Variables t1 t2 : nat.
Variable pos : list (vec2 Q).
Variables p1 p2 : vec2 Q.
Hypothesis Hpos :
  Metadata.positions (Metadata._metadata (metadata (reader self))) = Ok pos.
Hypothesis Ht1 : pos !! t1 = Some p1.
Hypothesis Ht2 : pos !! t2 = Some p2.

Let size := Metadata.size (metadata (reader self)).
Let top_left := vmax p1 p2.
Let bottom_right := vmin (vadd p1 (vinject size)) (vadd p2 (vinject size)).
Let extent := vmap Qceiling (vsub bottom_right top_left).

Lemma intersection_unfold :
  intersection self t1 t2 =
  if (0 <? extent.1) && (0 <? extent.2)
  then Ok (vsub p1 top_left, vsub p2 top_left, extent)
  else Raise (ValueError "Tiles do not intersect").
Proof.
  unfold intersection. rewrite Hpos. cbn [mbind result_bind].
  unfold getitem. rewrite Ht1, Ht2. cbn [mbind result_bind].
  cbn [amax0 amin0 map fold_left mbind result_bind].
  fold size. fold top_left. fold bottom_right.
  unfold extent, vany, vmap. cbn [fst snd].
  set (h := Qceiling (vsub bottom_right top_left).1).
  set (w := Qceiling (vsub bottom_right top_left).2).
  destruct (Z.leb_spec h 0), (Z.ltb_spec 0 h); try lia;
    destruct (Z.leb_spec w 0), (Z.ltb_spec 0 w); try lia;
    reflexivity.
Qed.


End Geometry.

Lemma intersection_ok_inv (self : t) (t1 t2 : nat) r :
  intersection self t1 t2 = Ok r ->
  exists pos p1 p2,
    Metadata.positions (Metadata._metadata (metadata (reader self))) = Ok pos /\
    pos !! t1 = Some p1 /\ pos !! t2 = Some p2.
Proof.
  unfold intersection, getitem. intros H.
  destruct (Metadata.positions _) as [pos|e] eqn:Hpos; [|discriminate H].
  cbn [mbind result_bind] in H.
  destruct (pos !! t1) as [p1|] eqn:Ht1; [|discriminate H].
  cbn [mbind result_bind] in H.
  destruct (pos !! t2) as [p2|] eqn:Ht2; [|discriminate H].
  exists pos, p1, p2. auto.
Qed.

(** Two tiles of the example grid: tile 0 at (0, 0) and tile 1 at (0, 90),
    both 100 x 100 pixels. *)
Definition example_metadata : Metadata.t :=
  {| Metadata._metadata := MetadataFacts.grid_2x3; Metadata.size := (100, 100) |}.

Lemma example_metadata_init :
  Metadata.__init__ MetadataFacts.grid_2x3 = Ok example_metadata.
Proof. reflexivity. Qed.

Definition example_reader : Reader :=
  {| metadata := example_metadata;
     ir := fun c series =>
             NdArray 100 100
               (fun y x => inject_Z (Z.of_nat ((y + x + series) mod 2))) |}.

Definition example_aligner : t := __init__ example_reader.



(** C5, as the code has it.  For two tiles that intersect, both offsets
    returned by [intersection] are at most zero on both axes, on each axis
    one of the two is zero, and the returned shape is strictly positive on
    both axes. *)
Theorem intersection_offsets (self : t) (t1 t2 : nat)
    (offset1 offset2 : vec2 Q) (shape : vec2 Z)
    (Hok : intersection self t1 t2 = Ok (offset1, offset2, shape)) :
  (offset1.1 <= 0 /\ offset1.2 <= 0 /\ offset2.1 <= 0 /\ offset2.2 <= 0)%Q /\
  ((offset1.1 == 0 \/ offset2.1 == 0) /\ (offset1.2 == 0 \/ offset2.2 == 0))%Q /\
  0 < shape.1 /\ 0 < shape.2.
Proof.
  destruct (intersection_ok_inv _ _ _ _ Hok) as (pos & p1 & p2 & Hpos & Ht1 & Ht2).
  rewrite (intersection_unfold self t1 t2 pos p1 p2 Hpos Ht1 Ht2) in Hok.
  cbv zeta in Hok.
  match type of Hok with
  | (if ?b then _ else _) = _ => destruct b eqn:Hb; [|discriminate Hok]
  end.
  injection Hok as <- <- <-.
  apply andb_true_iff in Hb as [Hh Hw]. apply Z.ltb_lt in Hh, Hw.
  split; [|split; [|split; assumption]].
  - unfold vsub, vmax, vzip. cbn [fst snd].
    pose proof (Q.le_max_l p1.1 p2.1). pose proof (Q.le_max_r p1.1 p2.1).
    pose proof (Q.le_max_l p1.2 p2.2). pose proof (Q.le_max_r p1.2 p2.2).
    repeat split; lra.
  - unfold vsub, vmax, vzip. cbn [fst snd].
    split.
    + destruct (Q.max_dec p1.1 p2.1) as [E|E]; [left|right]; rewrite E; lra.
    + destruct (Q.max_dec p1.2 p2.2) as [E|E]; [left|right]; rewrite E; lra.
Qed.

Lemma intersection_offsets_witness :
  exists o1 o2 sh,
    intersection example_aligner 0 1 = Ok (o1, o2, sh) /\
    (o1.2 <= 0)%Q /\ (o2.2 == 0)%Q /\ 0 < sh.2.
Proof.
  eexists. eexists. eexists. split; [reflexivity|].
  pose proof (intersection_offsets example_aligner 0 1 _ _ _ eq_refl) as H.
  split; [apply H|]. split; [reflexivity | apply H].
Defined.

(** C5, as the claim has it, fails: tile 0 of the example lies 90 pixels
    to the left of tile 1, and its offset on the x axis is -90. *)
Lemma intersection_offsets_negative :
  exists o1 o2 sh,
    intersection example_aligner 0 1 = Ok (o1, o2, sh) /\
    (o1.2 == - (90))%Q /\
    ~ (0 <= o1.1 /\ 0 <= o1.2 /\ 0 <= o2.1 /\ 0 <= o2.2)%Q.
Proof.
  eexists. eexists. eexists. split; [reflexivity|].
  split; [reflexivity|].
  intros (_ & H & _). vm_compute in H. apply H. reflexivity.
Qed.

End IntersectionFacts.

(** *** Registration of a pair of tiles *)

Module RegisterFacts.
Import EdgeAligner.



Section WithLibrary.
Context `{L : Library}.

(** The crop of lines 138-140 as a function of the plane read. *)
Definition cropped (r : Reader) (tile : nat) (offset : vec2 Q)
    (shape : vec2 Z) : ndarray Q :=
  clip (getslice (ndimage_shift (flipud (ir r 0%nat tile)) offset)
                 None (Some shape.1) None (Some shape.2)) 0 1.

Lemma crop_run (tile : nat) (offset : vec2 Q) (shape : vec2 Z) (w : world) :
  crop tile offset shape w =
  Ok (cropped (reader (self w)) tile offset shape, log_read (tile, 0%nat) w).
Proof. reflexivity. Qed.

Lemma overlap_run (t1 t2 : nat) (w : world) :
  overlap t1 t2 w =
  match intersection (self w) t1 t2 with
  | Ok (offset1, offset2, shape) =>
      Ok ((cropped (reader (self w)) t1 offset1 shape,
           cropped (reader (self w)) t2 offset2 shape),
          log_read (t2, 0%nat) (log_read (t1, 0%nat) w))
  | Raise e => Raise e
  end.
Proof.
  unfold overlap, mbind, io_bind, io_gets, io_lift.
  destruct (intersection (self w) t1 t2) as [[[o1 o2] sh]|e]; reflexivity.
Qed.

Lemma overlap_self (t1 t2 : nat) (w w' : world) imgs :
  overlap t1 t2 w = Ok (imgs, w') -> self w' = self w.
Proof.
  rewrite overlap_run.
  destruct (intersection (self w) t1 t2) as [[[o1 o2] sh]|e]; [|discriminate].
  intros [= _ <-]. reflexivity.
Qed.

(** The estimate of lines 116-120: the library's answer, or zero with
    error 1 when it [exceeds] the bound. *)
Definition estimate (s : t) (img1 img2 : ndarray Q) : vec2 Q * Q :=
  let '(shift, error, _) := register_translation (whiten img1) (whiten img2) 10 in
  if exceeds s shift then ((0, 0), 1)%Q else (shift, error).

(** Line 123-124. *)
Definition oriented (t1 t2 : nat) (entry : vec2 Q * Q) : vec2 Q * Q :=
  (if (t2 <? t1)%nat then vneg entry.1 else entry.1, entry.2).

Lemma register_hit (t1 t2 : nat) (w : world) (entry : vec2 Q * Q) :
  _cache (self w) !! sorted_pair t1 t2 = Some entry ->
  register t1 t2 w = Ok (oriented t1 t2 entry, w).
Proof.
  intros Hc. unfold register, mbind, io_bind, io_gets.
  rewrite Hc. destruct entry as [shift error]. reflexivity.
Qed.

Lemma register_miss (t1 t2 : nat) (w : world) :
  _cache (self w) !! sorted_pair t1 t2 = None ->
  register t1 t2 w =
  match overlap t1 t2 w with
  | Ok ((img1, img2), w') =>
      let entry := estimate (self w') img1 img2 in
      Ok (oriented t1 t2 entry, cache_store (sorted_pair t1 t2) entry w')
  | Raise e => Raise e
  end.
Proof.
  intros Hc. unfold register, mbind, io_bind, io_gets.
  rewrite Hc.
  destruct (overlap t1 t2 w) as [[[img1 img2] w']|e]; [|reflexivity].
  unfold estimate.
  destruct (register_translation (whiten img1) (whiten img2) 10)
    as [[shift error] pd].
  destruct (exceeds (self w') shift); reflexivity.
Qed.

(** After a call that returns, the entry of the pair is in the cache and
    the call returned it, oriented for the order of the query. *)
Lemma register_cached (t1 t2 : nat) (w w1 : world) (r : vec2 Q * Q) :
  register t1 t2 w = Ok (r, w1) ->
  exists entry,
    _cache (self w1) !! sorted_pair t1 t2 = Some entry /\
    r = oriented t1 t2 entry.
Proof.
  destruct (_cache (self w) !! sorted_pair t1 t2) as [entry|] eqn:Hc.
  - rewrite (register_hit _ _ _ _ Hc). intros [= <- <-]. eauto.
  - rewrite (register_miss _ _ _ Hc).
    destruct (overlap t1 t2 w) as [[[img1 img2] w']|e]; [|discriminate].
    cbv zeta. intros [= <- <-].
    eexists. split; [|reflexivity].
    cbn. apply lookup_insert_eq.
Qed.

(** A call never changes an entry that is already in the cache. *)
Lemma register_keeps (t1 t2 : nat) (w w1 : world) (r : vec2 Q * Q)
    (k : nat * nat) (entry : vec2 Q * Q) :
  register t1 t2 w = Ok (r, w1) ->
  _cache (self w) !! k = Some entry ->
  _cache (self w1) !! k = Some entry.
Proof.
  intros Hr Hk.
  destruct (_cache (self w) !! sorted_pair t1 t2) as [e0|] eqn:Hc.
  - rewrite (register_hit _ _ _ _ Hc) in Hr. injection Hr as _ <-. exact Hk.
  - rewrite (register_miss _ _ _ Hc) in Hr.
    destruct (overlap t1 t2 w) as [[[img1 img2] w']|e] eqn:Ho; [|discriminate].
    cbv zeta in Hr. injection Hr as _ <-.
    apply overlap_self in Ho.
    cbn. rewrite Ho. rewrite lookup_insert_ne; [exact Hk|].
    intros E. rewrite E in Hc. congruence.
Qed.

End WithLibrary.

End RegisterFacts.

(** ** A small library to run the code on examples

    Stand-ins for the library functions: a shift by nothing, a filter that
    returns its input, an estimator with a fixed answer and the rescaling of
    [0, 1] to the range of the target type. *)

Module Toy.

Definition rescale (dt : uint_dtype) (v : Q) : Z :=
  Z.max 0 (Z.min (iinfo_max dt) (Qfloor (v * inject_Z (iinfo_max dt) + (1 # 2)))).

Definition library (answer : vec2 Q * Q) : Library :=
  {| ndimage_shift := fun img _ => img;
     laplace := fun img => img;
     register_translation := fun _ _ _ => (answer, 0%Q);
     convert := fun img dt => amap (rescale dt) img |}.

Lemma library_laws (answer : vec2 Q * Q) : LibraryLaws (library answer).
Proof.
  split; try reflexivity.
  intros img dt y x. cbn. unfold rescale, iinfo_max.
  assert (0 < 2 ^ bits dt) by (destruct dt; reflexivity).
  lia.
Qed.

(** The example aligner before any call, an estimate within the bound of
    0.05 x 100 pixels, and the aligner after the first registration of
    tiles 0 and 1, which read the plane of each. *)
Definition world0 : EdgeAligner.world :=
  EdgeAligner.World IntersectionFacts.example_aligner [].

Definition near : vec2 Q * Q := ((3 # 10, - (2 # 10)), 1 # 100)%Q.
Definition far : vec2 Q * Q := ((3 # 10, 51 # 10), 1 # 100)%Q.

Definition world1 (first second : nat) (entry : vec2 Q * Q) : EdgeAligner.world :=
  EdgeAligner.cache_store (0, 1)%nat entry
    (EdgeAligner.log_read (second, 0%nat)
       (EdgeAligner.log_read (first, 0%nat) world0)).

End Toy.

Module RegisterTheorems.
Import EdgeAligner RegisterFacts.





(** The estimate is out of bounds: its absolute value exceeds
    [max_shift] times the tile size on some axis. *)
Definition out_of_bounds (s : t) (shift : vec2 Q) : Prop :=
  let size := Metadata.size (metadata (reader s)) in
  (max_shift s * inject_Z size.1 < Qabs shift.1)%Q \/
  (max_shift s * inject_Z size.2 < Qabs shift.2)%Q.

Lemma exceeds_spec `{L : Library} (s : t) (shift : vec2 Q) :
  exceeds s shift = true <-> out_of_bounds s shift.
Proof.
  unfold exceeds, out_of_bounds, vany, vzip, vmap, vabs, vinject, vmap.
  cbn [fst snd]. rewrite orb_true_iff, !Qltb_lt. reflexivity.
Qed.

(** C2, as the code has it.  When [register t1 t2] finds no entry for the
    pair and estimates the shift of the two overlap crops: if the estimate
    is out of bounds, the call returns a shift of exactly zero on both axes
    and the error 1, and stores them; otherwise it stores the unmodified
    estimate, and returns its error and its shift, unmodified when
    [t1 <= t2] and negated on both axes when [t1 > t2]. *)
Theorem register_outlier_clamp `{L : Library} (t1 t2 : nat) (w w' : world)
    (img1 img2 : ndarray Q) (shift : vec2 Q) (error pd : Q)
    (Hmiss : _cache (self w) !! sorted_pair t1 t2 = None)
    (Hcrops : overlap t1 t2 w = Ok ((img1, img2), w'))
    (Hest : register_translation (whiten img1) (whiten img2) 10
            = (shift, error, pd)) :
  (out_of_bounds (self w) shift ->
     exists w1,
       register t1 t2 w = Ok (((0, 0), 1)%Q, w1) /\
       _cache (self w1) !! sorted_pair t1 t2 = Some ((0, 0), 1)%Q) /\
  (~ out_of_bounds (self w) shift ->
     exists w1,
       register t1 t2 w
       = Ok ((if (t2 <? t1)%nat then vneg shift else shift, error), w1) /\
       _cache (self w1) !! sorted_pair t1 t2 = Some (shift, error)).
Proof.
  rewrite (register_miss _ _ _ Hmiss), Hcrops. cbv zeta.
  unfold estimate. rewrite Hest.
  rewrite <- (overlap_self _ _ _ _ _ Hcrops).
  split; intros Hb.
  - apply exceeds_spec in Hb. rewrite Hb.
    eexists. split.
    + f_equal. f_equal. unfold oriented. cbn [fst snd].
      destruct (t2 <? t1)%nat; reflexivity.
    + cbn. apply lookup_insert_eq.
  - destruct (exceeds (self w') shift) eqn:E.
    + exfalso. apply Hb, exceeds_spec, E.
    + eexists. split; [reflexivity|]. cbn. apply lookup_insert_eq.
Qed.

Lemma register_outlier_clamp_witness :
  (out_of_bounds (self Toy.world0) Toy.far.1 /\
   exists w1,
     register (L := Toy.library Toy.far) 0 1 Toy.world0
     = Ok (((0, 0), 1)%Q, w1) /\
     _cache (self w1) !! (0, 1)%nat = Some ((0, 0), 1)%Q) /\
  (~ out_of_bounds (self Toy.world0) Toy.near.1 /\
   exists w1,
     register (L := Toy.library Toy.near) 0 1 Toy.world0
     = Ok (Toy.near, w1) /\
     _cache (self w1) !! (0, 1)%nat = Some Toy.near).
Proof.
  split.
  - assert (Hb : out_of_bounds (self Toy.world0) Toy.far.1)
      by (right; reflexivity).
    split; [exact Hb|].
    apply (proj1 (register_outlier_clamp (L := Toy.library Toy.far)
                    0 1 Toy.world0 _ _ _ _ _ _ eq_refl eq_refl eq_refl)).
    exact Hb.
  - assert (Hb : ~ out_of_bounds (self Toy.world0) Toy.near.1).
    { intros [H|H]; vm_compute in H; discriminate H. }
    split; [exact Hb|].
    apply (proj2 (register_outlier_clamp (L := Toy.library Toy.near)
                    0 1 Toy.world0 _ _ _ _ _ _ eq_refl eq_refl eq_refl)).
    exact Hb.
Defined.

(** C2, as the claim has it, fails: queried as (1, 0), the example pair
    has an estimate within the bounds, and the call returns the negated
    estimate. *)
Lemma register_returns_negated_estimate :
  exists img1 img2 w' r w1,
    _cache (self Toy.world0) !! sorted_pair 1 0 = None /\
    overlap (L := Toy.library Toy.near) 1 0 Toy.world0 = Ok ((img1, img2), w') /\
    register_translation (Library := Toy.library Toy.near)
      (whiten (H := Toy.library Toy.near) img1)
      (whiten (H := Toy.library Toy.near) img2) 10 = (Toy.near, 0%Q) /\
    ~ out_of_bounds (self Toy.world0) Toy.near.1 /\
    register (L := Toy.library Toy.near) 1 0 Toy.world0 = Ok (r, w1) /\
    ~ (r.1.1 == Toy.near.1.1)%Q.
Proof.
  eexists. eexists. eexists.
  exists (vneg Toy.near.1, Toy.near.2), (Toy.world1 1 0 Toy.near).
  split; [reflexivity|]. split; [reflexivity|]. split; [reflexivity|].
  split; [intros [H|H]; vm_compute in H; discriminate H|].
  split; [reflexivity|].
  intros H. vm_compute in H. discriminate H.
Qed.

(** C3. After a call [register a b] that returns, a second call returns
    the same result, reads no plane and leaves the cache as it is; the
    entry under the sorted key stays the same through every later call;
    and the first call stores an entry, and reads the two planes, only
    when the key is not in the cache. *)
Theorem register_twice `{L : Library} (a b : nat) (w w1 : world)
    (r : vec2 Q * Q)
    (Hfirst : register a b w = Ok (r, w1)) :
  (exists w2, register a b w1 = Ok (r, w2) /\
              planes_read w2 = planes_read w1 /\
              _cache (self w2) = _cache (self w1)) /\
  (exists entry,
     _cache (self w1) !! sorted_pair a b = Some entry /\
     forall c d r' w2, register c d w1 = Ok (r', w2) ->
                       _cache (self w2) !! sorted_pair a b = Some entry) /\
  (_cache (self w) !! sorted_pair a b <> None -> w1 = w) /\
  (_cache (self w) !! sorted_pair a b = None ->
     planes_read w1 = (b, 0%nat) :: (a, 0%nat) :: planes_read w /\
     forall k, k <> sorted_pair a b ->
               _cache (self w1) !! k = _cache (self w) !! k).
Proof.
  destruct (register_cached _ _ _ _ _ Hfirst) as (entry & Hc & Hr).
  split; [|split; [|split]].
  - exists w1. rewrite (register_hit _ _ _ _ Hc), Hr. auto.
  - exists entry. split; [exact Hc|].
    intros c d r' w2 Hcd. exact (register_keeps _ _ _ _ _ _ _ Hcd Hc).
  - intros Hin.
    destruct (_cache (self w) !! sorted_pair a b) as [e0|] eqn:Hw; [|congruence].
    rewrite (register_hit _ _ _ _ Hw) in Hfirst. congruence.
  - intros Hw. rewrite (register_miss _ _ _ Hw), overlap_run in Hfirst.
    destruct (intersection (self w) a b) as [[[o1 o2] sh]|e]; [|discriminate].
    cbv zeta in Hfirst. injection Hfirst as _ <-.
    split; [reflexivity|].
    intros k Hk. cbn. apply lookup_insert_ne. congruence.
Qed.

Lemma register_twice_witness :
  register (L := Toy.library Toy.near) 0 1 Toy.world0
    = Ok (Toy.near, Toy.world1 0 1 Toy.near) /\
  (exists w2,
     register (L := Toy.library Toy.near) 0 1 (Toy.world1 0 1 Toy.near)
       = Ok (Toy.near, w2) /\
     planes_read w2 = [(1, 0); (0, 0)]%nat /\
     _cache (self w2) = {[ (0, 1)%nat := Toy.near ]}).
Proof.
  split; [reflexivity|].
  apply (register_twice (L := Toy.library Toy.near) 0 1 Toy.world0
           (Toy.world1 0 1 Toy.near) Toy.near eq_refl).
Defined.

End RegisterTheorems.

(** *** Arithmetic of positions and slices *)

Module PasteFacts.

Lemma Qtrunc_inject (z : Z) : Qtrunc (inject_Z z) = z.
Proof. unfold Qtrunc, inject_Z. cbn. apply Z.quot_1_r. Qed.

Lemma Qtrunc_nonneg (q : Q) : (0 <= q)%Q -> Qtrunc q = Qfloor q.
Proof.
  destruct q as [n d]. unfold Qle, Qtrunc, Qfloor. cbn. intros Hn.
  apply Z.quot_div_nonneg; lia.
Qed.

Lemma Qtrunc_opp (q : Q) : Qtrunc (- q) = - Qtrunc q.
Proof.
  destruct q as [n d]. unfold Qtrunc, Qopp. cbn. apply Z.quot_opp_l. lia.
Qed.

Lemma Qtrunc_nonpos (q : Q) : (q <= 0)%Q -> Qtrunc q = Qceiling q.
Proof.
  intros Hq. unfold Qceiling.
  rewrite <- (Qtrunc_nonneg (- q)) by lra.
  rewrite Qtrunc_opp. lia.
Qed.

(** The fraction kept by [modf] lies between -1 and 1 and has the sign of
    the number. *)
Lemma modf_nonneg (q : Q) :
  (0 <= q)%Q -> (0 <= (modf q).1 /\ (modf q).1 < 1)%Q.
Proof.
  intros Hq. unfold modf. cbn [fst]. rewrite (Qtrunc_nonneg q Hq).
  pose proof (Qfloor_le q). pose proof (Qlt_floor q) as Hlt.
  rewrite inject_Z_plus in Hlt. change (inject_Z 1) with 1%Q in Hlt.
  split; lra.
Qed.

Lemma modf_nonpos (q : Q) :
  (q <= 0)%Q -> (-1 < (modf q).1 /\ (modf q).1 <= 0)%Q.
Proof.
  intros Hq. unfold modf. cbn [fst]. rewrite (Qtrunc_nonpos q Hq).
  pose proof (Qle_ceiling q). pose proof (Qceiling_lt q) as Hlt.
  unfold Z.sub in Hlt. rewrite inject_Z_plus, inject_Z_opp in Hlt.
  change (inject_Z 1) with 1%Q in Hlt.
  split; lra.
Qed.

Lemma slice_bound_nonneg (n : nat) (i : Z) :
  0 <= i -> slice_bound n i = Nat.min (Z.to_nat i) n.
Proof.
  intros Hi. unfold slice_bound.
  destruct (Z.ltb_spec i 0); lia.
Qed.

Ltac nat_cases :=
  repeat match goal with
         | |- context [(?a <=? ?b)%nat] => destruct (Nat.leb_spec a b)
         | |- context [(?a <? ?b)%nat] => destruct (Nat.ltb_spec a b)
         | |- context [?a <? ?b] => destruct (Z.ltb_spec a b)
         end.

(** [clip_to_mosaic] drops [-yi] leading rows when [yi] is negative and
    [-xi] leading columns when [xi] is negative, and moves a negative
    offset to 0. *)
Lemma clip_to_mosaic_spec {A} (img : ndarray A) (yi xi : Z) :
  let '(img', yi', xi') := clip_to_mosaic img yi xi in
  yi' = Z.max 0 yi /\ xi' = Z.max 0 xi /\
  nrows img' = (nrows img - Z.to_nat (- yi))%nat /\
  ncols img' = (ncols img - Z.to_nat (- xi))%nat /\
  forall y x, (y < nrows img')%nat -> (x < ncols img')%nat ->
              item img' y x = item img (Z.to_nat (- yi) + y)%nat (Z.to_nat (- xi) + x)%nat.
Proof.
  unfold clip_to_mosaic.
  destruct (Z.ltb_spec yi 0) as [Hy|Hy], (Z.ltb_spec xi 0) as [Hx|Hx];
    cbn [getslice view sub whole slice_start slice_stop nrows ncols item wy wx wh ww];
    rewrite ?slice_bound_nonneg by lia;
    (split; [lia|]); (split; [lia|]); (split; [lia|]); (split; [lia|]);
    intros y x Hyr Hxr; f_equal; lia.
Qed.

Lemma Qclip_range (x : Q) : (0 <= Qclip 0 1 x /\ Qclip 0 1 x <= 1)%Q.
Proof.
  unfold Qclip. split.
  - apply Q.min_glb; [apply Q.le_max_r | lra].
  - apply Q.le_min_r.
Qed.

Lemma aany_false {A} (p : A -> bool) (a : ndarray A) :
  (forall y x, p (item a y x) = false) -> aany p a = false.
Proof.
  intros Hp. unfold aany. apply not_true_iff_false.
  rewrite existsb_exists. intros (y & _ & Hy).
  apply existsb_exists in Hy as (x & _ & Hx).
  rewrite Hp in Hx. discriminate.
Qed.

Lemma inside_offset (n m top left h w y x : nat) :
  (h <= n - top)%nat -> (w <= m - left)%nat -> (y < n)%nat -> (x < m)%nat ->
  inside (Window (Nat.min top n) (Nat.min left m) h w) y x
  = (top <=? y)%nat && (y <? top + h)%nat && (left <=? x)%nat && (x <? left + w)%nat.
Proof.
  intros Hh Hw Hy Hx. unfold inside. cbn [wy wx wh ww].
  apply eq_true_iff_eq.
  rewrite !andb_true_iff, !Nat.leb_le, !Nat.ltb_lt. lia.
Qed.

(** Line 234: the canvas after the assignment through the window. *)
Lemma assign_maximum_item (target : uint_array) (v : window) (px : ndarray Z)
    (y x : nat) :
  item (data (assign_data target v (maximum (view (data target) v) px))) y x =
  if inside v y x
  then Z.max (item (data target) y x) (item px (y - wy v)%nat (x - wx v)%nat)
  else item (data target) y x.
Proof.
  cbn [assign_data assign data item maximum view nrows ncols].
  destruct (inside v y x) eqn:E; [|reflexivity].
  unfold inside in E. apply andb_true_iff in E as [E Hx2].
  apply andb_true_iff in E as [E Hx1]. apply andb_true_iff in E as [Hy1 Hy2].
  apply Nat.leb_le in Hy1, Hx1.
  replace (wy v + (y - wy v))%nat with y by lia.
  replace (wx v + (x - wx v))%nat with x by lia.
  reflexivity.
Qed.

Lemma ceiling_of_fraction (q : Q) :
  ~ (q == inject_Z (Qfloor q))%Q -> Qceiling q = Qfloor q + 1.
Proof.
  intros Hq.
  pose proof (Qfloor_le q) as H1. pose proof (Qlt_floor q) as H2.
  pose proof (Qle_ceiling q) as H3. pose proof (Qceiling_lt q) as H4.
  assert (Hlo : Qfloor q < Qceiling q).
  { rewrite Zlt_Qlt. apply Qlt_le_trans with q; [|exact H3].
    apply Qle_lteq in H1 as [H1|H1]; [exact H1|].
    exfalso. apply Hq. symmetry. exact H1. }
  assert (Hhi : Qceiling q - 1 < Qfloor q + 1).
  { rewrite Zlt_Qlt. apply Qlt_trans with q; assumption. }
  lia.
Qed.

(** The split of a negative coordinate: towards zero. *)
Lemma modf_negative (p : Q) :
  (p < 0)%Q ->
  Qtrunc p <= 0 /\
  (-1 < p - inject_Z (Qtrunc p) /\ p - inject_Z (Qtrunc p) <= 0)%Q /\
  (~ (p == inject_Z (Qfloor p))%Q ->
     Qtrunc p = Qfloor p + 1 /\
     (p - inject_Z (Qtrunc p) < 0)%Q /\
     (p - inject_Z (Qtrunc p) == (p - inject_Z (Qfloor p)) - 1)%Q).
Proof.
  intros Hp. split; [|split].
  - rewrite Qtrunc_nonpos by lra.
    apply Qceiling_resp_le with (y := 0%Q). lra.
  - apply (modf_nonpos p). lra.
  - intros Hfrac. rewrite Qtrunc_nonpos by lra.
    rewrite (ceiling_of_fraction p Hfrac), inject_Z_plus.
    change (inject_Z 1) with 1%Q.
    pose proof (Qlt_floor p) as H2. rewrite inject_Z_plus in H2.
    change (inject_Z 1) with 1%Q in H2.
    split; [reflexivity|]. split; lra.
Qed.

Lemma iadd_item (target : uint_array) (v : window) (k : Z) (y x : nat) :
  item (data (iadd target v k)) y x =
  if inside v y x
  then (item (data target) y x + k) mod 2 ^ bits (dtype target)
  else item (data target) y x.
Proof.
  cbn [iadd assign_data assign data item amap view].
  destruct (inside v y x) eqn:E; [|reflexivity].
  unfold inside in E. apply andb_true_iff in E as [E Hx2].
  apply andb_true_iff in E as [E Hx1]. apply andb_true_iff in E as [Hy1 Hy2].
  apply Nat.leb_le in Hy1, Hx1.
  replace (wy v + (y - wy v))%nat with y by lia.
  replace (wx v + (x - wx v))%nat with x by lia.
  reflexivity.
Qed.

(** The outline at the top-left pixel of a window of at least 2 x 2
    pixels: 6000 is added once, and the sum wraps around in the type of the
    canvas; nothing clamps it afterwards. *)
Lemma outline_corner (target : uint_array) (v : window) :
  (2 <= wh v)%nat -> (2 <= ww v)%nat ->
  (outline target v).2 = Ok tt /\
  dtype (outline target v).1 = dtype target /\
  item (data (outline target v).1) (wy v) (wx v)
  = (item (data target) (wy v) (wx v) + 6000) mod 2 ^ bits (dtype target).
Proof.
  intros Hh Hw. unfold outline, sub_row, sub_col, index_of.
  replace (- Z.of_nat (wh v) <=? 0) with true by (symmetry; apply Z.leb_le; lia).
  replace (0 <? Z.of_nat (wh v)) with true by (symmetry; apply Z.ltb_lt; lia).
  replace (- Z.of_nat (wh v) <=? -1) with true by (symmetry; apply Z.leb_le; lia).
  replace (-1 <? Z.of_nat (wh v)) with true by (symmetry; apply Z.ltb_lt; lia).
  replace (- Z.of_nat (ww v) <=? 0) with true by (symmetry; apply Z.leb_le; lia).
  replace (0 <? Z.of_nat (ww v)) with true by (symmetry; apply Z.ltb_lt; lia).
  replace (- Z.of_nat (ww v) <=? -1) with true by (symmetry; apply Z.leb_le; lia).
  replace (-1 <? Z.of_nat (ww v)) with true by (symmetry; apply Z.ltb_lt; lia).
  cbn [andb mbind result_bind brighten fst snd].
  split; [reflexivity|]. split; [reflexivity|].
  cbv zeta. rewrite !iadd_item.
  cbn [sub slice_start slice_stop wy wx wh ww Z.ltb Z.compare].
  unfold inside, slice_bound. cbn [wy wx wh ww Z.ltb Z.compare Z.opp].
  replace (wy v + Z.to_nat (1 `min` Z.of_nat (wh v)) <=? wy v)%nat with false
    by (symmetry; apply Nat.leb_gt; lia).
  replace (wy v + Z.to_nat (-1 + Z.of_nat (wh v)) <=? wy v)%nat with false
    by (symmetry; apply Nat.leb_gt; lia).
  cbn [andb].
  replace (wy v + Z.to_nat 0 <=? wy v)%nat with true
    by (symmetry; apply Nat.leb_le; lia).
  replace (wy v <? wy v + Z.to_nat 0 + 1)%nat with true
    by (symmetry; apply Nat.ltb_lt; lia).
  replace (wx v + 0 <=? wx v)%nat with true
    by (symmetry; apply Nat.leb_le; lia).
  replace (wx v <? wx v + 0 + (ww v - 0))%nat with true
    by (symmetry; apply Nat.ltb_lt; lia).
  reflexivity.
Qed.

(** Every pixel of the canvas holds a value of its type. *)
Definition in_range (t : uint_array) : Prop :=
  forall y x, (y < nrows (data t))%nat -> (x < ncols (data t))%nat ->
              0 <= item (data t) y x <= iinfo_max (dtype t).

Lemma iadd_in_range (t : uint_array) (v : window) (k : Z) :
  in_range t -> in_range (iadd t v k).
Proof.
  intros Ht y x Hy Hx. rewrite iadd_item.
  change (dtype (iadd t v k)) with (dtype t).
  destruct (inside v y x); [|exact (Ht y x Hy Hx)].
  unfold iinfo_max.
  assert (0 < 2 ^ bits (dtype t)) by (destruct (dtype t); reflexivity).
  pose proof (Z.mod_pos_bound (item (data t) y x + k) (2 ^ bits (dtype t))).
  lia.
Qed.

Lemma brighten_in_range (w : result window) (s : uint_array * result unit) :
  in_range s.1 -> in_range (brighten w s).1.
Proof.
  destruct s as [t [[]|e]], w as [w|e']; cbn [brighten fst]; auto.
  apply iadd_in_range.
Qed.

Lemma outline_in_range (t : uint_array) (v : window) :
  in_range t -> in_range (outline t v).1.
Proof.
  intros Ht. unfold outline. cbv zeta.
  repeat apply brighten_in_range. exact Ht.
Qed.


(** The outline of a window that is not empty does not raise. *)
Lemma outline_returns (target : uint_array) (v : window) :
  (1 <= wh v)%nat -> (1 <= ww v)%nat -> (outline target v).2 = Ok tt.
Proof.
  intros Hh Hw. unfold outline, sub_row, sub_col, index_of.
  replace (- Z.of_nat (wh v) <=? 0) with true by (symmetry; apply Z.leb_le; lia).
  replace (0 <? Z.of_nat (wh v)) with true by (symmetry; apply Z.ltb_lt; lia).
  replace (- Z.of_nat (wh v) <=? -1) with true by (symmetry; apply Z.leb_le; lia).
  replace (-1 <? Z.of_nat (wh v)) with true by (symmetry; apply Z.ltb_lt; lia).
  replace (- Z.of_nat (ww v) <=? 0) with true by (symmetry; apply Z.leb_le; lia).
  replace (0 <? Z.of_nat (ww v)) with true by (symmetry; apply Z.ltb_lt; lia).
  replace (- Z.of_nat (ww v) <=? -1) with true by (symmetry; apply Z.leb_le; lia).
  replace (-1 <? Z.of_nat (ww v)) with true by (symmetry; apply Z.ltb_lt; lia).
  reflexivity.
Qed.

Section Compositing.
Context `{L : Library}.

(** The slice of line 229 and the image that reaches [convert] on line
    233. *)
Definition slice_of (target : uint_array) (img : ndarray Q) (yi xi : Z) : window :=
  sub (whole (data target))
      (Some yi) (Some (yi + Z.of_nat (nrows img)))
      (Some xi) (Some (xi + Z.of_nat (ncols img))).

Definition clamped_of (target : uint_array) (img : ndarray Q) (yi xi : Z)
    (pos_f : vec2 Q) : ndarray Q :=
  clip (ndimage_shift
          (crop_like img (view (data target) (slice_of target img yi xi)))
          pos_f) 0 1.

Lemma composite_unfold (target : uint_array) (img : ndarray Q) (yi xi : Z)
    (pos_f : vec2 Q) :
  composite target img yi xi pos_f =
  match dtype_convert (clamped_of target img yi xi pos_f) (dtype target) with
  | Ok px =>
      (assign_data target (slice_of target img yi xi)
         (maximum (view (data target) (slice_of target img yi xi)) px),
       Ok (slice_of target img yi xi))
  | Raise e => (target, Raise e)
  end.
Proof. reflexivity. Qed.

Lemma dtype_convert_ok (img : ndarray Q) (dt : uint_dtype) (px : ndarray Z) :
  dtype_convert img dt = Ok px -> px = convert img dt.
Proof.
  unfold dtype_convert.
  destruct ((nrows img =? 0)%nat || (ncols img =? 0)%nat); [discriminate|].
  destruct (aany _ img || aany _ img); [discriminate|].
  intros [= <-]. reflexivity.
Qed.

(** After the clamp of line 232 the range check of [convert] passes: only
    an empty image is refused. *)
Lemma dtype_convert_clip (a : ndarray Q) (dt : uint_dtype) :
  dtype_convert (clip a 0 1) dt =
  if (nrows a =? 0)%nat || (ncols a =? 0)%nat
  then Raise zero_size_error
  else Ok (convert (clip a 0 1) dt).
Proof.
  unfold dtype_convert. cbn [clip amap nrows ncols].
  destruct ((nrows a =? 0)%nat || (ncols a =? 0)%nat); [reflexivity|].
  rewrite !aany_false; [reflexivity| |];
    intros y x; apply not_true_iff_false; rewrite Qltb_lt;
    change (item (clip a 0 1) y x) with (Qclip 0 1 (item a y x));
    pose proof (Qclip_range (item a y x)); lra.
Qed.

(** The window of line 229, for an offset that is not negative. *)
Lemma slice_of_window (target : uint_array) (img : ndarray Q) (yi xi : Z) :
  0 <= yi -> 0 <= xi ->
  let v := slice_of target img yi xi in
  wy v = Nat.min (Z.to_nat yi) (nrows (data target)) /\
  wx v = Nat.min (Z.to_nat xi) (ncols (data target)) /\
  wh v = Nat.min (nrows img) (nrows (data target) - Z.to_nat yi) /\
  ww v = Nat.min (ncols img) (ncols (data target) - Z.to_nat xi).
Proof.
  intros Hyi Hxi. unfold slice_of.
  cbn [sub whole slice_start slice_stop wy wx wh ww].
  rewrite !slice_bound_nonneg by lia. repeat split; lia.
Qed.

(** Line 230: the source cut to the slice. *)
Lemma cropped_to_slice (target : uint_array) (img : ndarray Q) (yi xi : Z) :
  0 <= yi -> 0 <= xi ->
  let src := crop_like img (view (data target) (slice_of target img yi xi)) in
  shape src = (wh (slice_of target img yi xi), ww (slice_of target img yi xi)) /\
  forall y x, item src y x = item img y x.
Proof.
  intros Hyi Hxi.
  destruct (slice_of_window target img yi xi Hyi Hxi) as (_ & _ & Hwh & Hww).
  cbv zeta. split.
  - unfold crop_like, shape. cbn [view nrows ncols]. rewrite Hwh, Hww.
    nat_cases;
      cbn [getslice view sub whole slice_start slice_stop nrows ncols wy wx wh ww] in *;
      rewrite ?slice_bound_nonneg in * by lia; f_equal; lia.
  - intros y x. unfold crop_like. cbn [view nrows ncols].
    nat_cases; reflexivity.
Qed.

(** [paste] in terms of the truncated position. *)
Lemma paste_unfold (target : uint_array) (img : ndarray Q) (pos : vec2 Q)
    (debug : bool) :
  paste target img pos debug =
  let '(img', yi', xi') := clip_to_mosaic img (Qtrunc pos.1) (Qtrunc pos.2) in
  match composite target img' yi' xi'
          (pos.1 - inject_Z (Qtrunc pos.1), pos.2 - inject_Z (Qtrunc pos.2))%Q with
  | (out, Ok target_slice) =>
      if debug then outline out target_slice else (out, Ok tt)
  | (out, Raise e) => (out, Raise e)
  end.
Proof.
  unfold paste, split_position, vmap, modf. cbn [fst snd].
  rewrite !Qtrunc_inject. reflexivity.
Qed.

Context {laws : LibraryLaws L}.

(** Lines 229-234 for an offset that is not negative: [convert] refuses an
    empty slice; otherwise each pixel of the slice becomes the maximum of
    its value and the converted source. *)
Lemma composite_spec (target : uint_array) (img : ndarray Q) (yi xi : Z)
    (pos_f : vec2 Q) :
  0 <= yi -> 0 <= xi ->
  let v := slice_of target img yi xi in
  shape (clamped_of target img yi xi pos_f) = (wh v, ww v) /\
  composite target img yi xi pos_f =
    if (wh v =? 0)%nat || (ww v =? 0)%nat
    then (target, Raise zero_size_error)
    else (assign_data target v
            (maximum (view (data target) v)
               (convert (clamped_of target img yi xi pos_f) (dtype target))),
          Ok v).
Proof.
  intros Hyi Hxi v.
  destruct (cropped_to_slice target img yi xi Hyi Hxi) as [Hsrc _].
  cbv zeta in Hsrc. fold v in Hsrc.
  pose proof (ndimage_shift_shape
                (crop_like img (view (data target) v)) pos_f) as Hsh.
  rewrite Hsrc in Hsh.
  assert (Hr : nrows (ndimage_shift (crop_like img (view (data target) v)) pos_f)
               = wh v) by exact (f_equal fst Hsh).
  assert (Hc : ncols (ndimage_shift (crop_like img (view (data target) v)) pos_f)
               = ww v) by exact (f_equal snd Hsh).
  split.
  - unfold clamped_of, clip, amap, shape. cbn [nrows ncols]. fold v.
    rewrite Hr, Hc. reflexivity.
  - rewrite composite_unfold. unfold clamped_of at 1. fold v.
    rewrite dtype_convert_clip, Hr, Hc.
    destruct ((wh v =? 0)%nat || (ww v =? 0)%nat); reflexivity.
Qed.

(** [paste] without the outline, pixel by pixel. *)
Lemma paste_canvas (target : uint_array) (img : ndarray Q) (pos : vec2 Q) :
  let yi := Qtrunc pos.1 in
  let xi := Qtrunc pos.2 in
  let cut_y := Z.to_nat (- yi) in
  let cut_x := Z.to_nat (- xi) in
  let top := Z.to_nat yi in
  let left := Z.to_nat xi in
  let h := Nat.min (nrows img - cut_y) (nrows (data target) - top) in
  let w := Nat.min (ncols img - cut_x) (ncols (data target) - left) in
  let pos_f := (pos.1 - inject_Z yi, pos.2 - inject_Z xi)%Q in
  exists src clamped : ndarray Q,
    shape src = (h, w) /\
    (forall y x, (y < h)%nat -> (x < w)%nat ->
                 item src y x = item img (cut_y + y)%nat (cut_x + x)%nat) /\
    shape clamped = (h, w) /\
    (forall y x, item clamped y x
                 = Qmin (Qmax (item (ndimage_shift src pos_f) y x) 0) 1) /\
    let px := convert clamped (dtype target) in
    let out := paste target img pos false in
    out.2 = (if (h =? 0)%nat || (w =? 0)%nat
             then Raise zero_size_error else Ok tt) /\
    dtype out.1 = dtype target /\
    shape (data out.1) = shape (data target) /\
    forall y x, (y < nrows (data target))%nat -> (x < ncols (data target))%nat ->
      item (data out.1) y x =
      if (top <=? y)%nat && (y <? top + h)%nat && (left <=? x)%nat && (x <? left + w)%nat
      then Z.max (item (data target) y x) (item px (y - top)%nat (x - left)%nat)
      else item (data target) y x.
Proof.
  intros yi xi cut_y cut_x top left h w pos_f.
  rewrite paste_unfold. fold yi xi. fold pos_f.
  pose proof (clip_to_mosaic_spec img yi xi) as Hclip.
  destruct (clip_to_mosaic img yi xi) as [[img' yi'] xi'].
  destruct Hclip as (Hyi & Hxi & Hrows & Hcols & Hitem).
  assert (Hyi' : 0 <= yi') by (clear - Hyi; lia).
  assert (Hxi' : 0 <= xi') by (clear - Hxi; lia).
  assert (Etop : Z.to_nat yi' = top) by (subst top; clear - Hyi; lia).
  assert (Eleft : Z.to_nat xi' = left) by (subst left; clear - Hxi; lia).
  destruct (slice_of_window target img' yi' xi' Hyi' Hxi') as (Hwy & Hwx & Hwh & Hww).
  destruct (cropped_to_slice target img' yi' xi' Hyi' Hxi') as [Hsrc Hsrci].
  destruct (composite_spec target img' yi' xi' pos_f Hyi' Hxi') as [Hcl Hcomp].
  cbv zeta in Hwy, Hwx, Hwh, Hww, Hsrc, Hsrci, Hcl, Hcomp.
  set (v := slice_of target img' yi' xi') in *.
  rewrite Etop in Hwy, Hwh. rewrite Eleft in Hwx, Hww.
  rewrite Hrows in Hwh. rewrite Hcols in Hww.
  fold cut_y in Hwh. fold cut_x in Hww. fold h in Hwh. fold w in Hww.
  rewrite Hwh, Hww in Hsrc, Hcl, Hcomp.
  exists (crop_like img' (view (data target) v)),
         (clamped_of target img' yi' xi' pos_f).
  split; [exact Hsrc|]. split.
  { intros y x Hy Hx. rewrite Hsrci. apply Hitem.
    - rewrite Hrows. fold cut_y. clear - Hy. subst h. lia.
    - rewrite Hcols. fold cut_x. clear - Hx. subst w. lia. }
  split; [exact Hcl|]. split; [reflexivity|].
  cbv zeta. rewrite Hcomp.
  destruct ((h =? 0)%nat || (w =? 0)%nat) eqn:E; cbn [fst snd].
  - split; [reflexivity|]. split; [reflexivity|]. split; [reflexivity|].
    intros y x Hy Hx.
    apply orb_true_iff in E. rewrite !Nat.eqb_eq in E.
    replace ((top <=? y)%nat && (y <? top + h)%nat &&
             (left <=? x)%nat && (x <? left + w)%nat) with false; [reflexivity|].
    symmetry. apply not_true_iff_false.
    rewrite !andb_true_iff, !Nat.leb_le, !Nat.ltb_lt. clear - E. lia.
  - split; [reflexivity|]. split; [reflexivity|]. split; [reflexivity|].
    intros y x Hy Hx. rewrite assign_maximum_item.
    assert (Hv : v = Window (Nat.min top (nrows (data target)))
                            (Nat.min left (ncols (data target))) h w)
      by (destruct v; cbn [wy wx wh ww] in *; congruence).
    rewrite Hv. cbn [wy wx].
    rewrite (inside_offset (nrows (data target)) (ncols (data target))
               top left h w y x)
      by (try exact Hy; try exact Hx; subst h w; apply Nat.le_min_r).
    destruct ((top <=? y)%nat && (y <? top + h)%nat &&
              (left <=? x)%nat && (x <? left + w)%nat) eqn:Ein; [|reflexivity].
    rewrite !andb_true_iff, !Nat.leb_le in Ein.
    destruct Ein as [[[Hty _] Hlx] _].
    replace (Nat.min top (nrows (data target))) with top by (clear - Hty Hy; lia).
    replace (Nat.min left (ncols (data target))) with left by (clear - Hlx Hx; lia).
    reflexivity.
Qed.

(** C6. [paste] without the debug outline.  The integer position is the
    position with its fraction dropped, towards zero.  On an axis whose
    integer position is negative, that many leading rows or columns of the source
    are dropped and the offset is 0; the source is cut to the part of the
    canvas at and after the offset; the fractional shift is applied to it,
    each value of the result is clamped to [0, 1], and the clamped image is
    converted to the type of the canvas; each canvas pixel under it becomes
    the maximum of its value and the converted source pixel, and every
    other pixel keeps its value.  The call returns when the part is not
    empty; when it is empty, [convert] raises [ValueError] and every pixel
    keeps its value. *)
Theorem paste_spec (target : uint_array) (img : ndarray Q) (pos : vec2 Q) :
  let yi := Qtrunc pos.1 in
  let xi := Qtrunc pos.2 in
  let cut_y := Z.to_nat (- yi) in
  let cut_x := Z.to_nat (- xi) in
  let top := Z.to_nat yi in
  let left := Z.to_nat xi in
  let h := Nat.min (nrows img - cut_y) (nrows (data target) - top) in
  let w := Nat.min (ncols img - cut_x) (ncols (data target) - left) in
  let pos_f := (pos.1 - inject_Z yi, pos.2 - inject_Z xi)%Q in
  ((0 <= pos.1)%Q -> yi = Qfloor pos.1) /\
  ((pos.1 <= 0)%Q -> yi = Qceiling pos.1) /\
  ((0 <= pos.2)%Q -> xi = Qfloor pos.2) /\
  ((pos.2 <= 0)%Q -> xi = Qceiling pos.2) /\
  exists src clamped : ndarray Q,
    shape src = (h, w) /\
    (forall y x, (y < h)%nat -> (x < w)%nat ->
                 item src y x = item img (cut_y + y)%nat (cut_x + x)%nat) /\
    shape clamped = (h, w) /\
    (forall y x, item clamped y x
                 = Qmin (Qmax (item (ndimage_shift src pos_f) y x) 0) 1) /\
    let px := convert clamped (dtype target) in
    let out := paste target img pos false in
    shape px = (h, w) /\
    ((0 < h)%nat /\ (0 < w)%nat -> out.2 = Ok tt) /\
    (h = 0%nat \/ w = 0%nat ->
       out.2 = Raise (ValueError
         "zero-size array to reduction operation minimum which has no identity")) /\
    dtype out.1 = dtype target /\
    shape (data out.1) = shape (data target) /\
    forall y x, (y < nrows (data target))%nat -> (x < ncols (data target))%nat ->
      item (data out.1) y x =
      if (top <=? y)%nat && (y <? top + h)%nat && (left <=? x)%nat && (x <? left + w)%nat
      then Z.max (item (data target) y x) (item px (y - top)%nat (x - left)%nat)
      else item (data target) y x.
Proof.
  intros yi xi cut_y cut_x top left h w pos_f.
  destruct (paste_canvas target img pos)
    as (src & clamped & Hsrc & Hsrci & Hcl & Hcli & Hout).
  fold yi xi cut_y cut_x top left h w pos_f in Hsrc, Hsrci, Hcl, Hcli, Hout.
  cbv zeta in Hout. destruct Hout as (Hst & Hdt & Hsh & Hpix).
  split; [apply Qtrunc_nonneg|]. split; [apply Qtrunc_nonpos|].
  split; [apply Qtrunc_nonneg|]. split; [apply Qtrunc_nonpos|].
  exists src, clamped.
  split; [exact Hsrc|]. split; [exact Hsrci|].
  split; [exact Hcl|]. split; [exact Hcli|]. cbv zeta.
  split; [rewrite convert_shape; exact Hcl|].
  split.
  { intros [Hh Hw]. rewrite Hst.
    replace (h =? 0)%nat with false by (symmetry; apply Nat.eqb_neq; lia).
    replace (w =? 0)%nat with false by (symmetry; apply Nat.eqb_neq; lia).
    reflexivity. }
  split.
  { intros Hhw. rewrite Hst.
    replace ((h =? 0)%nat || (w =? 0)%nat) with true; [reflexivity|].
    symmetry. apply orb_true_iff. rewrite !Nat.eqb_eq. exact Hhw. }
  split; [exact Hdt|]. split; [exact Hsh | exact Hpix].
Qed.

(** C10. [paste] splits a position towards zero.  The shift that it
    applies to the source is the pair of remainders [p - trunc p], and the
    canvas holds the clamped and converted result of that shift.  On an
    axis where [p] is negative, [trunc p] is the ceiling of [p],
    [trunc (- p)] leading rows (columns) of the source are dropped, the part is placed at offset 0, and the remainder
    lies in (-1, 0]; when [p] is not an integer, [trunc p] is
    [floor p + 1] and the remainder is negative, one less than the
    remainder [p - floor p] of a split by [floor]. *)
Theorem paste_negative_position (target : uint_array) (img : ndarray Q)
    (pos : vec2 Q) :
  let fy := (pos.1 - inject_Z (Qtrunc pos.1))%Q in
  let fx := (pos.2 - inject_Z (Qtrunc pos.2))%Q in
  let cut_y := Z.to_nat (Qtrunc (- pos.1)) in
  let cut_x := Z.to_nat (Qtrunc (- pos.2)) in
  let top := Z.to_nat (Qtrunc pos.1) in
  let left := Z.to_nat (Qtrunc pos.2) in
  let h := Nat.min (nrows img - cut_y) (nrows (data target) - top) in
  let w := Nat.min (ncols img - cut_x) (ncols (data target) - left) in
  (split_position pos).1 = (fy, fx) /\
  (exists src clamped : ndarray Q,
     shape src = (h, w) /\
     (forall y x, (y < h)%nat -> (x < w)%nat ->
                  item src y x = item img (cut_y + y)%nat (cut_x + x)%nat) /\
     shape clamped = (h, w) /\
     (forall y x, item clamped y x
                  = Qmin (Qmax (item (ndimage_shift src (fy, fx)) y x) 0) 1) /\
     forall y x, (y < nrows (data target))%nat -> (x < ncols (data target))%nat ->
       item (data (paste target img pos false).1) y x =
       if (top <=? y)%nat && (y <? top + h)%nat && (left <=? x)%nat && (x <? left + w)%nat
       then Z.max (item (data target) y x)
                  (item (convert clamped (dtype target)) (y - top)%nat (x - left)%nat)
       else item (data target) y x) /\
  ((pos.1 < 0)%Q ->
     Qtrunc pos.1 = Qceiling pos.1 /\
     top = 0%nat /\ Z.of_nat cut_y = - Qtrunc pos.1 /\
     (-1 < fy /\ fy <= 0)%Q /\
     (~ (pos.1 == inject_Z (Qfloor pos.1))%Q ->
        Qtrunc pos.1 = Qfloor pos.1 + 1 /\
        (fy < 0)%Q /\
        (fy == (pos.1 - inject_Z (Qfloor pos.1)) - 1)%Q)) /\
  ((pos.2 < 0)%Q ->
     Qtrunc pos.2 = Qceiling pos.2 /\
     left = 0%nat /\ Z.of_nat cut_x = - Qtrunc pos.2 /\
     (-1 < fx /\ fx <= 0)%Q /\
     (~ (pos.2 == inject_Z (Qfloor pos.2))%Q ->
        Qtrunc pos.2 = Qfloor pos.2 + 1 /\
        (fx < 0)%Q /\
        (fx == (pos.2 - inject_Z (Qfloor pos.2)) - 1)%Q)).
Proof.
  intros fy fx cut_y cut_x top left h w.
  split.
  { unfold split_position, vmap, modf. cbn [fst snd]. reflexivity. }
  split.
  { destruct (paste_canvas target img pos)
      as (src & clamped & Hsrc & Hsrci & Hcl & Hcli & Hout).
    cbv zeta in Hout. destruct Hout as (_ & _ & _ & Hpix).
    rewrite <- !Qtrunc_opp in Hsrc, Hsrci, Hcl, Hpix.
    exists src, clamped.
    split; [exact Hsrc|]. split; [exact Hsrci|].
    split; [exact Hcl|]. split; [exact Hcli | exact Hpix]. }
  split; intros Hp; destruct (modf_negative _ Hp) as (Hle & Hrange & Hfrac).
  - split; [apply Qtrunc_nonpos; lra|].
    split; [subst top; clear - Hle; lia|].
    split; [subst cut_y; rewrite Qtrunc_opp; clear - Hle; lia|].
    split; [exact Hrange | exact Hfrac].
  - split; [apply Qtrunc_nonpos; lra|].
    split; [subst left; clear - Hle; lia|].
    split; [subst cut_x; rewrite Qtrunc_opp; clear - Hle; lia|].
    split; [exact Hrange | exact Hfrac].
Qed.

End Compositing.

(** X24. [paste], with or without the outline, keeps the pixels of the canvas
    within its type: the outline by wrapping around. *)
Lemma paste_in_range `{L : Library} {laws : LibraryLaws L}
    (target : uint_array) (img : ndarray Q) (pos : vec2 Q) (debug : bool) :
  in_range target -> in_range (paste target img pos debug).1.
Proof.
  intros Ht. rewrite paste_unfold.
  destruct (clip_to_mosaic img (Qtrunc pos.1) (Qtrunc pos.2)) as [[img' yi'] xi'].
  rewrite composite_unfold.
  destruct (dtype_convert _ (dtype target)) as [px|e] eqn:Hpx; [|exact Ht].
  apply dtype_convert_ok in Hpx.
  match goal with
  | |- context [assign_data target ?v0 _] => set (v := v0)
  end.
  assert (Hc : in_range (assign_data target v
                           (maximum (view (data target) v) px))).
  { intros y x Hy Hx. rewrite assign_maximum_item.
    change (dtype (assign_data target v (maximum (view (data target) v) px)))
      with (dtype target).
    pose proof (Ht y x Hy Hx) as Hin.
    destruct (inside v y x); [|exact Hin].
    rewrite Hpx.
    match goal with
    | |- context [item (convert ?a ?dt) ?i ?j] =>
        pose proof (convert_range a dt i j) as Hr
    end.
    clear - Hin Hr. lia. }
  destruct debug; [apply outline_in_range, Hc | exact Hc].
Qed.

(** X25. When the pasted region has at least 2 x 2 pixels, so that
    [convert] accepts the source, [paste] with the outline returns normally
    and leaves at the top-left pixel of the region
    the value that [paste] without the outline leaves there, plus 6000,
    modulo 2 ^ bits of the canvas type: the sum wraps around and is not
    clamped. *)
Lemma paste_outline_wraps `{L : Library} {laws : LibraryLaws L}
    (target : uint_array) (img : ndarray Q) (pos : vec2 Q) :
  let yi := Qtrunc pos.1 in
  let xi := Qtrunc pos.2 in
  let top := Z.to_nat yi in
  let left := Z.to_nat xi in
  let h := Nat.min (nrows img - Z.to_nat (- yi)) (nrows (data target) - top) in
  let w := Nat.min (ncols img - Z.to_nat (- xi)) (ncols (data target) - left) in
  let plain := paste target img pos false in
  let framed := paste target img pos true in
  (2 <= h)%nat -> (2 <= w)%nat ->
  framed.2 = Ok tt /\
  item (data framed.1) top left
  = (item (data plain.1) top left + 6000) mod 2 ^ bits (dtype target).
Proof.
  intros yi xi top left h w plain framed Hh Hw.
  subst plain framed. rewrite !paste_unfold. fold yi xi.
  pose proof (clip_to_mosaic_spec img yi xi) as Hclip.
  destruct (clip_to_mosaic img yi xi) as [[img' yi'] xi'].
  destruct Hclip as (Hyi & Hxi & Hrows & Hcols & _).
  assert (Etop : Z.to_nat yi' = top) by (subst top; clear - Hyi; lia).
  assert (Eleft : Z.to_nat xi' = left) by (subst left; clear - Hxi; lia).
  assert (Hyi' : 0 <= yi') by (clear - Hyi; lia).
  assert (Hxi' : 0 <= xi') by (clear - Hxi; lia).
  destruct (slice_of_window target img' yi' xi' Hyi' Hxi') as (Hwy & Hwx & Hwh & Hww).
  destruct (composite_spec target img' yi' xi'
              (pos.1 - inject_Z yi, pos.2 - inject_Z xi)%Q Hyi' Hxi') as [_ Hcomp].
  cbv zeta in Hwy, Hwx, Hwh, Hww, Hcomp.
  set (v := slice_of target img' yi' xi') in *.
  rewrite Hrows, Etop in Hwh. rewrite Hcols, Eleft in Hww.
  rewrite Etop in Hwy. rewrite Eleft in Hwx.
  fold h in Hwh. fold w in Hww.
  assert (Htop : wy v = top) by (clear - Hwy Hh; subst h; lia).
  assert (Hleft : wx v = left) by (clear - Hwx Hw; subst w; lia).
  assert (Hh2 : (2 <= wh v)%nat) by (rewrite Hwh; exact Hh).
  assert (Hw2 : (2 <= ww v)%nat) by (rewrite Hww; exact Hw).
  rewrite Hcomp.
  replace (wh v =? 0)%nat with false by (symmetry; apply Nat.eqb_neq; lia).
  replace (ww v =? 0)%nat with false by (symmetry; apply Nat.eqb_neq; lia).
  cbn [orb fst snd].
  match goal with
  | |- context [outline ?o v] => set (out := o)
  end.
  destruct (outline_corner out v Hh2 Hw2) as (Hok & _ & Hpx).
  rewrite Htop, Hleft in Hpx.
  split; [exact Hok | exact Hpx].
Qed.

End PasteFacts.

(** *** paste on small canvases *)

Module PasteExamples.

Definition canvas0 : uint_array :=
  {| dtype := uint8; data := NdArray 3 4 (fun _ _ => 10) |}.

(** A 3 x 3 source with the values 0.1, 0.2, ..., 0.9. *)
Definition img0 : ndarray Q :=
  NdArray 3 3 (fun y x => Z.of_nat (3 * y + x + 1) # 10).

Definition pos0 : vec2 Q := (- (3 # 2), 2)%Q.

(** One row of the source falls off the top of the canvas and one column
    off its right edge. *)
Example paste_canvas0 :
  to_rows (data (paste (H := Toy.library Toy.near) canvas0 img0 pos0 false).1)
  = [ [10; 10; 102; 128]; [10; 10; 179; 204]; [10; 10; 10; 10] ].
Proof. vm_compute. reflexivity. Qed.

(** C6 at [canvas0]: the call returns; the pixel at (0, 2) is the maximum
    of 10 and the conversion of [img0[1, 0] = 0.4], the pixel at (1, 3) that
    of 10 and the conversion of [img0[2, 1] = 0.8], and the pixel at (2, 2),
    outside the pasted part, keeps its 10. *)
Lemma paste_spec_witness :
  LibraryLaws (Toy.library Toy.near) /\
  (paste (H := Toy.library Toy.near) canvas0 img0 pos0 false).2 = Ok tt /\
  item (data (paste (H := Toy.library Toy.near) canvas0 img0 pos0 false).1) 0 2
  = 102 /\
  item (data (paste (H := Toy.library Toy.near) canvas0 img0 pos0 false).1) 1 3
  = 204 /\
  item (data (paste (H := Toy.library Toy.near) canvas0 img0 pos0 false).1) 2 2
  = 10.
Proof.
  split; [apply Toy.library_laws|].
  destruct (PasteFacts.paste_spec (laws := Toy.library_laws Toy.near)
              canvas0 img0 pos0)
    as (_ & _ & _ & _ & src & clamped & _ & Hsrc & _ & Hclamped & H).
  cbv zeta in H. destruct H as (_ & Hok & _ & _ & _ & Hpix).
  assert (Hpx : forall i j, (i < 2)%nat -> (j < 2)%nat ->
            item (convert (Library := Toy.library Toy.near) clamped uint8) i j
            = Toy.rescale uint8 (Qmin (Qmax (item img0 (1 + i) (0 + j)) 0) 1)).
  { intros i j Hi Hj.
    change (item (convert clamped uint8) i j)
      with (Toy.rescale uint8 (item clamped i j)).
    rewrite Hclamped.
    change (item (ndimage_shift src _) i j) with (item src i j).
    rewrite (Hsrc i j Hi Hj). reflexivity. }
  split; [apply Hok; split; vm_compute; lia|].
  split; [|split].
  - rewrite (Hpix 0%nat 2%nat) by (vm_compute; lia).
    change (dtype canvas0) with uint8.
    etransitivity;
      [exact (f_equal (Z.max 10) (Hpx 0%nat 0%nat ltac:(lia) ltac:(lia)))
      | vm_compute; reflexivity].
  - rewrite (Hpix 1%nat 3%nat) by (vm_compute; lia).
    change (dtype canvas0) with uint8.
    etransitivity;
      [exact (f_equal (Z.max 10) (Hpx 1%nat 1%nat ltac:(lia) ltac:(lia)))
      | vm_compute; reflexivity].
  - rewrite (Hpix 2%nat 2%nat) by (vm_compute; lia). reflexivity.
Defined.

(** A stand-in for [scipy.ndimage.shift] that depends on the shift: linear
    interpolation between a pixel and its neighbour against the direction
    of the shift, with 0 outside the image. *)
Definition sample (a : ndarray Q) (y x : Z) : Q :=
  if (0 <=? y) && (y <? Z.of_nat (nrows a)) && (0 <=? x) && (x <? Z.of_nat (ncols a))
  then item a (Z.to_nat y) (Z.to_nat x)
  else 0%Q.

Definition linear_shift (img : ndarray Q) (s : vec2 Q) : ndarray Q :=
  let ay := Qabs s.1 in
  let ax := Qabs s.2 in
  let dy := if Qltb s.1 0 then 1 else -1 in
  let dx := if Qltb s.2 0 then 1 else -1 in
  NdArray (nrows img) (ncols img)
    (fun y x =>
       let y := Z.of_nat y in
       let x := Z.of_nat x in
       ((1 - ay) * (1 - ax) * sample img y x
        + ay * (1 - ax) * sample img (y + dy) x
        + (1 - ay) * ax * sample img y (x + dx)
        + ay * ax * sample img (y + dy) (x + dx))%Q).

Definition interpolating : Library :=
  {| ndimage_shift := linear_shift;
     laplace := fun img => img;
     register_translation := fun _ _ _ => (Toy.near, 0%Q);
     convert := fun img dt => amap (Toy.rescale dt) img |}.

Lemma interpolating_laws : LibraryLaws interpolating.
Proof.
  split; try reflexivity.
  intros img dt y x. cbn. unfold Toy.rescale, iinfo_max.
  assert (0 < 2 ^ bits dt) by (destruct dt; reflexivity).
  lia.
Qed.

(** With the interpolating shift the canvas shows which remainder was
    applied: row 0 of the pasted part is half of row 1 and half of row 2 of
    the source, as for the shift -1/2; a split by [floor] would drop two
    rows and shift by +1/2. *)
Example paste_canvas0_interpolated :
  to_rows (data (paste (H := interpolating) canvas0 img0 pos0 false).1)
  = [ [10; 10; 140; 166]; [10; 10; 89; 102]; [10; 10; 10; 10] ].
Proof. vm_compute. reflexivity. Qed.

(** C10 at [pos0 = (-1.5, 2)]: one row is dropped, the part is placed at
    row 0, the shift on the row axis is -1/2, and the pixel at (0, 2) is
    the conversion of [(0.4 + 0.7) / 2]. *)
Lemma paste_negative_position_witness :
  LibraryLaws interpolating /\
  (pos0.1 < 0)%Q /\
  ~ (pos0.1 == inject_Z (Qfloor pos0.1))%Q /\
  Z.to_nat (Qtrunc (- pos0.1)) = 1%nat /\
  Z.to_nat (Qtrunc pos0.1) = 0%nat /\
  ((split_position pos0).1.1 == - (1 # 2))%Q /\
  item (data (paste (H := interpolating) canvas0 img0 pos0 false).1) 0 2 = 140.
Proof.
  assert (Hneg : (pos0.1 < 0)%Q) by reflexivity.
  assert (Hfrac : ~ (pos0.1 == inject_Z (Qfloor pos0.1))%Q)
    by (intros H; vm_compute in H; discriminate H).
  split; [apply interpolating_laws|].
  split; [exact Hneg|]. split; [exact Hfrac|].
  destruct (PasteFacts.paste_negative_position (laws := interpolating_laws)
              canvas0 img0 pos0)
    as (Hsplit & (src & clamped & Hshape & Hsrc & _ & Hclamped & Hpix) & Hy & _).
  destruct (Hy Hneg) as (_ & Htop & Hcut & _ & Hrem).
  destruct (Hrem Hfrac) as (_ & _ & Hfy).
  split; [apply Nat2Z.inj; rewrite Hcut; reflexivity|].
  split; [exact Htop|].
  split; [rewrite Hsplit; cbn [fst]; rewrite Hfy; reflexivity|].
  assert (Hsample : forall y x,
            sample src y x
            = sample (NdArray 2 2 (fun i j => item img0 (1 + i) (0 + j))) y x).
  { intros y x. unfold sample.
    replace (nrows src) with 2%nat by (symmetry; exact (f_equal fst Hshape)).
    replace (ncols src) with 2%nat by (symmetry; exact (f_equal snd Hshape)).
    cbn [nrows ncols item].
    destruct ((0 <=? y) && (y <? Z.of_nat 2) && (0 <=? x) && (x <? Z.of_nat 2))
      eqn:E; [|reflexivity].
    rewrite !andb_true_iff, !Z.leb_le, !Z.ltb_lt in E.
    apply Hsrc;
      [change (Z.to_nat y < 2)%nat | change (Z.to_nat x < 2)%nat]; lia. }
  rewrite (Hpix 0%nat 2%nat) by (vm_compute; lia).
  change (dtype canvas0) with uint8.
  match goal with
  | |- (if ?c then _ else _) = _ => replace c with true by (vm_compute; reflexivity)
  end.
  change (item (convert (Library := interpolating) clamped uint8)
               (0 - Z.to_nat (Qtrunc pos0.1)) (2 - Z.to_nat (Qtrunc pos0.2)))
    with (Toy.rescale uint8 (item clamped 0 0)).
  rewrite Hclamped.
  change (item (ndimage_shift (Library := interpolating) src ?s) 0 0)
    with (item (linear_shift src s) 0 0).
  unfold linear_shift. cbn [item]. rewrite !Hsample.
  vm_compute. reflexivity.
Defined.

(** A bright 16-bit canvas and a black source. *)
Definition bright : uint_array :=
  {| dtype := uint16; data := NdArray 3 3 (fun _ _ => 65000) |}.

Definition dark : ndarray Q := NdArray 3 3 (fun _ _ => 0%Q).

(** C8 at a bright canvas.  With the outline, each border pixel goes from
    65000 to (65000 + 6000) mod 65536 = 5464: it is darker than before and
    is not the maximum 65535 of the type that brightening followed by a
    clamp would give. *)
Lemma paste_debug_wraps :
  let plain := paste (H := Toy.library Toy.near) bright dark (0, 0)%Q false in
  let framed := paste (H := Toy.library Toy.near) bright dark (0, 0)%Q true in
  framed.2 = Ok tt /\
  to_rows (data plain.1)
  = [ [65000; 65000; 65000]; [65000; 65000; 65000]; [65000; 65000; 65000] ] /\
  to_rows (data framed.1)
  = [ [5464; 5464; 5464]; [5464; 65000; 5464]; [5464; 5464; 5464] ] /\
  Z.min (65000 + 6000) (iinfo_max (dtype framed.1)) = 65535.
Proof. vm_compute. repeat split; reflexivity. Qed.

Example paste_outline_wraps_bright :
  (paste (H := Toy.library Toy.near) bright dark (0, 0)%Q true).2 = Ok tt /\
  item (data (paste (H := Toy.library Toy.near) bright dark (0, 0)%Q true).1) 0 0
  = 5464.
Proof.
  destruct (PasteFacts.paste_outline_wraps (laws := Toy.library_laws Toy.near)
              bright dark (0, 0)%Q) as [Hok Hpx].
  - vm_compute. lia.
  - vm_compute. lia.
  - split; [exact Hok|].
    etransitivity; [exact Hpx | vm_compute; reflexivity].
Defined.

End PasteExamples.

Module LayerFacts.
Import LayerAligner.

(** The minimum over the rows is a lower bound of every row. *)
Lemma fold_vmin_le (rs : list (vec2 Q)) (r : vec2 Q) :
  let m := fold_left vmin rs r in
  ((m.1 <= r.1 /\ m.2 <= r.2) /\
   forall p, In p rs -> m.1 <= p.1 /\ m.2 <= p.2)%Q.
Proof.
  revert r. induction rs as [|a rs IH]; intros r; cbn [fold_left].
  - split; [split; apply Qle_refl | intros p []].
  - destruct (IH (vmin r a)) as [[H1 H2] Hin].
    cbv zeta in *.
    change ((vmin r a).1) with (Qmin r.1 a.1) in H1.
    change ((vmin r a).2) with (Qmin r.2 a.2) in H2.
    pose proof (Q.le_min_l r.1 a.1). pose proof (Q.le_min_r r.1 a.1).
    pose proof (Q.le_min_l r.2 a.2). pose proof (Q.le_min_r r.2 a.2).
    split; [split; lra|].
    intros p [<-|Hp]; [split; lra | apply Hin, Hp].
Qed.

Lemma amin0_le (rows : list (vec2 Q)) (m p : vec2 Q) :
  amin0 rows = Ok m -> In p rows -> (m.1 <= p.1 /\ m.2 <= p.2)%Q.
Proof.
  destruct rows as [|r rs]; [discriminate|].
  destruct (fold_vmin_le rs r) as [Hr Hin]. cbv zeta in Hr, Hin.
  intros [= <-] [<-|Hp]; [exact Hr | exact (Hin p Hp)].
Qed.

Lemma lookup_map {A B} (f : A -> B) (l : list A) (i : nat) (a : A) :
  l !! i = Some a -> map f l !! i = Some (f a).
Proof.
  revert i. induction l as [|x l IH]; intros [|i]; cbn; try discriminate.
  - intros [= <-]. reflexivity.
  - apply IH.
Qed.

Lemma lookup_In {A} (l : list A) (i : nat) (a : A) : l !! i = Some a -> In a l.
Proof.
  revert i. induction l as [|x l IH]; intros [|i]; cbn; try discriminate.
  - intros [= <-]. left. reflexivity.
  - intros H. right. exact (IH i H).
Qed.

(** [crop_like] reads only the shape of its second argument. *)
Lemma crop_like_shape_only {A B C} (img : ndarray A) (t1 : ndarray B) (t2 : ndarray C) :
  shape t1 = shape t2 -> crop_like img t1 = crop_like img t2.
Proof.
  unfold shape, crop_like. intros [= -> ->]. reflexivity.
Qed.

Lemma crop_like_spec {A B} (img : ndarray A) (target : ndarray B) :
  shape (crop_like img target)
    = (Nat.min (nrows img) (nrows target), Nat.min (ncols img) (ncols target)) /\
  forall y x, item (crop_like img target) y x = item img y x.
Proof.
  unfold crop_like, shape.
  PasteFacts.nat_cases;
    cbn [getslice view sub whole slice_start slice_stop nrows ncols item wy wx wh ww] in *;
    rewrite ?PasteFacts.slice_bound_nonneg in * by lia;
    (split; [f_equal; lia | reflexivity]).
Qed.

Section Register.
Context `{L : Library} {laws : LibraryLaws L}.

(** C9, as the code has it.  A [LayerAligner] stores for each tile its
    position minus the origin of the positions, with the fraction dropped
    (which rounds down, the difference not being negative); [register]
    cuts the tile image to the shape of the window of the reference image
    at that stored position, and returns the stored position plus the
    estimated shift, with the error of the estimate. *)
Theorem layer_register_spec (rd : Reader) (ref : ndarray Q) (self : t)
    (pos : list (vec2 Q)) (origin p : vec2 Q) (tile : nat)
    (log : list (nat * nat))
    (Hinit : __init__ rd ref = Ok self)
    (Hpos : Metadata.positions (Metadata._metadata (metadata rd)) = Ok pos)
    (Horigin : Metadata.origin (Metadata._metadata (metadata rd)) = Ok origin)
    (Htile : pos !! tile = Some p) :
  let stored := vmap Qtrunc (vsub p origin) in
  let img := flipud (ir rd 0%nat tile) in
  let window :=
    getslice ref (Some stored.1) (Some (stored.1 + Z.of_nat (nrows img)))
                 (Some stored.2) (Some (stored.2 + Z.of_nat (ncols img))) in
  let cut := crop_like img window in
  positions self !! tile = Some stored /\
  (stored.1 = Qfloor (p.1 - origin.1) /\ stored.2 = Qfloor (p.2 - origin.2) /\
   0 <= stored.1 /\ 0 <= stored.2) /\
  (shape cut = (Nat.min (nrows img) (nrows window),
                Nat.min (ncols img) (ncols window)) /\
   forall y x, item cut y x = item img y x) /\
  register self tile log =
    (let '(shift, error, _) := register_translation (whiten window) (whiten cut) 10 in
     Ok ((vadd (vinject stored) shift, error), (tile, 0%nat) :: log)).
Proof.
  intros stored img window cut.
  unfold __init__ in Hinit. rewrite Hpos, Horigin in Hinit.
  cbn [mbind result_bind] in Hinit. injection Hinit as <-.
  assert (Hstored : map (fun q => vmap Qtrunc (vsub q origin)) pos !! tile = Some stored)
    by exact (lookup_map _ _ _ _ Htile).
  assert (Hge : (origin.1 <= p.1 /\ origin.2 <= p.2)%Q).
  { unfold Metadata.origin in Horigin. rewrite Hpos in Horigin.
    cbn [mbind result_bind] in Horigin.
    exact (amin0_le _ _ _ Horigin (lookup_In _ _ _ Htile)). }
  split; [exact Hstored|]. split.
  { unfold stored, vmap, vsub, vzip. cbn [fst snd].
    rewrite !PasteFacts.Qtrunc_nonneg by lra.
    repeat split; try reflexivity;
      (change 0 with (Qfloor 0); apply Qfloor_resp_le; lra). }
  split; [apply crop_like_spec|].
  unfold register, Reader_read, mbind, io_bind, io_modify, io_lift, mret, io_ret, getitem.
  cbn [LayerAligner.reader LayerAligner.positions LayerAligner.reference_image].
  rewrite Hstored. fold img. unfold shape.
  destruct stored as [sy sx] eqn:Es. cbn [fst snd] in *.
  fold window.
  rewrite (crop_like_shape_only img (whiten window) window)
    by (unfold whiten; apply laplace_shape).
  fold cut.
  destruct (register_translation (whiten window) (whiten cut) 10) as [[shift error] pd].
  reflexivity.
Qed.

End Register.

End LayerFacts.

(** *** A layer over the example grid *)

Module LayerExamples.
Import LayerAligner.

Definition ref0 : ndarray Q :=
  NdArray 190 280 (fun y x => inject_Z (Z.of_nat ((y + x) mod 2))).

Definition layer0 : t :=
  {| reader := IntersectionFacts.example_reader;
     reference_image := ref0;
     positions := [ (0, 0); (0, 90); (0, 180); (90, 0); (90, 90); (90, 180) ] |}.

Lemma layer0_init : __init__ IntersectionFacts.example_reader ref0 = Ok layer0.
Proof. reflexivity. Qed.

Lemma grid_2x3_origin : Metadata.origin MetadataFacts.grid_2x3 = Ok (0, 0)%Q.
Proof. reflexivity. Qed.

(** The window of the reference image under tile 1, and the tile cut to it. *)
Definition window1 : ndarray Q :=
  getslice ref0 (Some 0) (Some 100) (Some 90) (Some 190).

Definition cut1 : ndarray Q :=
  crop_like (flipud (ir IntersectionFacts.example_reader 0%nat 1%nat)) window1.

Lemma layer_register_spec_witness :
  __init__ IntersectionFacts.example_reader ref0 = Ok layer0 /\
  positions layer0 !! 1%nat = Some (0, 90) /\
  register (H := Toy.library Toy.near) layer0 1 []
  = (let '(shift, error, _) :=
       register_translation (Library := Toy.library Toy.near)
         (whiten (H := Toy.library Toy.near) window1)
         (whiten (H := Toy.library Toy.near) cut1) 10 in
     Ok ((vadd (vinject (0, 90)) shift, error), [(1, 0)%nat])).
Proof.
  split; [exact layer0_init|].
  destruct (LayerFacts.layer_register_spec
              (laws := Toy.library_laws Toy.near)
              IntersectionFacts.example_reader ref0 layer0 _ (0, 0)%Q
              (0 / (1 # 2), 45 / (1 # 2))%Q 1 []
              layer0_init MetadataFacts.grid_2x3_positions grid_2x3_origin eq_refl)
    as (Hstored & _ & _ & Hreg).
  split; [exact Hstored | exact Hreg].
Defined.

(** [z] is [q] rounded to an integer, in the words of the claim: no integer
    is nearer to [q] than [z]. *)
Definition rounded_to_integer (q : Q) (z : Z) : Prop :=
  (Qabs (q - inject_Z z) <= 1 # 2)%Q.

(** Two tiles with pixels of 1 micron, the second 0.7 pixels below and 90
    pixels right of the first. *)
Definition tile_px (y x : Q) : image :=
  {| SizeY := 100; SizeX := 100;
     PhysicalSizeY := 1; PhysicalSizeX := 1;
     PositionY := y; PositionX := x |}.

Definition shifted_pair : OMEXML :=
  {| images := [ tile_px 0 0; tile_px (7 # 10) 90 ] |}.

Definition shifted_reader : Reader :=
  {| metadata := {| Metadata._metadata := shifted_pair; Metadata.size := (100, 100) |};
     ir := ir IntersectionFacts.example_reader |}.

(** C9, as the claim has it, fails: the second tile lies 0.7 pixels from
    the origin on the y axis, and the stored coordinate is 0, not the
    nearest integer 1. *)
Lemma layer_position_not_rounded :
  exists self p origin,
    Metadata.__init__ shifted_pair = Ok (metadata shifted_reader) /\
    __init__ shifted_reader ref0 = Ok self /\
    Metadata.positions shifted_pair = Ok [origin; p] /\
    Metadata.origin shifted_pair = Ok origin /\
    (p.1 - origin.1 == 7 # 10)%Q /\
    positions self !! 1%nat = Some (0, 90) /\
    ~ rounded_to_integer (p.1 - origin.1) 0 /\
    rounded_to_integer (p.1 - origin.1) 1.
Proof.
  eexists. eexists. eexists.
  split; [reflexivity|]. split; [reflexivity|]. split; [reflexivity|].
  split; [reflexivity|]. split; [reflexivity|]. split; [reflexivity|].
  split.
  - intros H. vm_compute in H. apply H. reflexivity.
  - intros H. vm_compute in H. discriminate H.
Qed.

End LayerExamples.

(** * Further properties *)

(** ** Metadata: sizes, positions, origin, centers *)

Module MetadataMore.
Import Metadata.

(** Running a computation over consecutive indices of a list. *)
Lemma mapM_indices {A B} (f : nat -> result B) (g : A -> B) (n : nat)
    (rest : list A) :
  (forall k a, rest !! k = Some a -> f (n + k)%nat = Ok (g a)) ->
  mapM f (seq n (length rest)) = Ok (map g rest).
Proof.
  revert n. induction rest as [|a rest IH]; intros n Hf; [reflexivity|].
  cbn [length seq mapM map].
  rewrite <- (Nat.add_0_r n) at 1. rewrite (Hf 0%nat a eq_refl).
  cbn [mbind result_bind].
  rewrite (IH (S n)); [reflexivity|].
  intros k b Hk. replace (S n + k)%nat with (n + S k)%nat by lia.
  apply Hf. exact Hk.
Qed.

Definition size_of (img : image) : vec2 Z := (SizeY img, SizeX img).

Lemma vne_false (u v : vec2 Z) : vany (vne u v) = false <-> u = v.
Proof.
  destruct u as [a b], v as [c d]. unfold vany, vne, vzip. cbn [fst snd].
  rewrite orb_false_iff, !negb_false_iff, !Z.eqb_eq.
  split; [intros [-> ->]; reflexivity | intros [= -> ->]; split; reflexivity].
Qed.

(** X1. [Metadata.__init__] raises [IndexError] on a series without images;
    otherwise it succeeds exactly when every image has the pixel counts of
    image 0, which become [size], and raises its [ValueError] as soon as one
    image differs. *)
Theorem metadata_init_spec (m : OMEXML) :
  (images m = [] -> __init__ m = Raise IndexError) /\
  (forall i0 rest, images m = i0 :: rest ->
     ((forall img, In img rest -> size_of img = size_of i0) ->
        __init__ m = Ok {| _metadata := m; size := size_of i0 |}) /\
     ((exists img, In img rest /\ size_of img <> size_of i0) ->
        __init__ m
        = Raise (ValueError "Image series must all have the same dimensions"))).
Proof.
  split.
  - intros Hm. unfold __init__, tile_size, getitem. rewrite Hm. reflexivity.
  - intros i0 rest Hm.
    assert (Hrun : __init__ m =
              if existsb id (map (fun img => vany (vne (size_of img) (size_of i0))) rest)
              then Raise (ValueError "Image series must all have the same dimensions")
              else Ok {| _metadata := m; size := size_of i0 |}).
    { unfold __init__, num_images, image_count. rewrite Hm.
      assert (H0 : tile_size m 0 = Ok (size_of i0))
        by (unfold tile_size, getitem; rewrite Hm; reflexivity).
      rewrite H0. cbn [mbind result_bind length].
      rewrite Nat.sub_succ, Nat.sub_0_r.
      rewrite (mapM_indices _ (fun img => vany (vne (size_of img) (size_of i0)))
                 1 rest); [reflexivity|].
      intros k a Hk. unfold tile_size, getitem. rewrite Hm.
      change ((i0 :: rest) !! (1 + k)%nat) with (rest !! k).
      rewrite Hk. reflexivity. }
    rewrite Hrun. split.
    + intros Hall.
      replace (existsb id _) with false; [reflexivity|].
      symmetry. apply not_true_iff_false. rewrite existsb_exists.
      intros [b [Hb Hid]]. apply in_map_iff in Hb as [img [<- Himg]].
      unfold id in Hid.
      pose proof (proj2 (vne_false _ _) (Hall img Himg)). congruence.
    + intros [img [Himg Hne]].
      replace (existsb id _) with true; [reflexivity|].
      symmetry. apply existsb_exists.
      exists (vany (vne (size_of img) (size_of i0))). split.
      * apply in_map_iff. exists img. split; [reflexivity | exact Himg].
      * unfold id. apply not_false_iff_true. rewrite vne_false. exact Hne.
Qed.

(** Two images of different widths. *)
Definition mixed_sizes : OMEXML :=
  {| images := [ MetadataFacts.tile_at 0 0;
                 {| SizeY := 100; SizeX := 120;
                    PhysicalSizeY := 1 # 2; PhysicalSizeX := 1 # 2;
                    PositionY := 0; PositionX := 45 |} ] |}.

Lemma metadata_init_spec_witness :
  __init__ MetadataFacts.grid_2x3 = Ok IntersectionFacts.example_metadata /\
  __init__ mixed_sizes
  = Raise (ValueError "Image series must all have the same dimensions").
Proof.
  split.
  - apply (proj2 (metadata_init_spec MetadataFacts.grid_2x3) _ _ eq_refl).
    intros img Himg. cbn in Himg.
    repeat destruct Himg as [<-|Himg]; try contradiction; reflexivity.
  - apply (proj2 (metadata_init_spec mixed_sizes) _ _ eq_refl).
    eexists. split; [left; reflexivity|]. discriminate.
Defined.

(** The position of an image in pixels, by the pixel size of [i0]. *)
Definition scaled (i0 img : image) : vec2 Q :=
  (PositionY img / PhysicalSizeY i0, PositionX img / PhysicalSizeX i0)%Q.

Lemma positions_empty (m : OMEXML) :
  images m = [] ->
  positions m = Raise (ValueError "need at least one array to concatenate").
Proof.
  intros Hm. unfold positions, num_images, image_count. rewrite Hm. reflexivity.
Qed.

(** X2. [positions] raises numpy's [ValueError] on a series without images;
    otherwise it returns one row per image, in the order of the series,
    each the stage position of the image divided by the physical pixel size
    of image 0. *)
Theorem positions_spec (m : OMEXML) :
  (images m = [] ->
     positions m = Raise (ValueError "need at least one array to concatenate")) /\
  (forall i0 rest, images m = i0 :: rest ->
     positions m = Ok (map (scaled i0) (images m))).
Proof.
  split; [apply positions_empty|].
  - intros i0 rest Hm. unfold positions, num_images, image_count.
    rewrite (mapM_indices _ (scaled i0) 0 (images m)).
    + rewrite Hm. reflexivity.
    + intros k a Hk. unfold tile_position, pixel_size, getitem.
      cbn [Nat.add]. rewrite Hk. rewrite Hm. reflexivity.
Qed.

Lemma positions_spec_witness :
  positions MetadataFacts.grid_2x3
  = Ok (map (scaled (MetadataFacts.tile_at 0 0)) (images MetadataFacts.grid_2x3)).
Proof. exact (proj2 (positions_spec MetadataFacts.grid_2x3) _ _ eq_refl). Defined.

Lemma fold_vmin_attained (rs : list (vec2 Q)) (r : vec2 Q) :
  let m := fold_left vmin rs r in
  (exists p, In p (r :: rs) /\ (m.1 == p.1)%Q) /\
  (exists p, In p (r :: rs) /\ (m.2 == p.2)%Q).
Proof.
  revert r. induction rs as [|a rs IH]; intros r; cbn [fold_left].
  - split; exists r; (split; [left; reflexivity | reflexivity]).
  - destruct (IH (vmin r a)) as [[p [Hp H1]] [q [Hq H2]]]. cbv zeta in *.
    split.
    + destruct Hp as [<-|Hp].
      * change ((vmin r a).1) with (Qmin r.1 a.1) in H1.
        destruct (Q.min_dec r.1 a.1) as [E|E]; rewrite E in H1.
        -- exists r. split; [left; reflexivity | exact H1].
        -- exists a. split; [right; left; reflexivity | exact H1].
      * exists p. split; [right; right; exact Hp | exact H1].
    + destruct Hq as [<-|Hq].
      * change ((vmin r a).2) with (Qmin r.2 a.2) in H2.
        destruct (Q.min_dec r.2 a.2) as [E|E]; rewrite E in H2.
        -- exists r. split; [left; reflexivity | exact H2].
        -- exists a. split; [right; left; reflexivity | exact H2].
      * exists q. split; [right; right; exact Hq | exact H2].
Qed.

(** X3. Where [positions] returns, [origin] returns too, and on each axis
    its coordinate is the smallest coordinate of the tiles: no tile lies
    before it, and some tile lies at it. *)
Theorem origin_is_minimum (m : OMEXML) (pos : list (vec2 Q))
    (Hpos : positions m = Ok pos) :
  exists o,
    origin m = Ok o /\
    (forall p, In p pos -> (o.1 <= p.1 /\ o.2 <= p.2)%Q) /\
    (exists p, In p pos /\ (o.1 == p.1)%Q) /\
    (exists p, In p pos /\ (o.2 == p.2)%Q).
Proof.
  unfold origin. rewrite Hpos. cbn [mbind result_bind].
  destruct pos as [|r rs].
  - exfalso. exact (MetadataFacts.positions_nonempty m [] Hpos eq_refl).
  - exists (fold_left vmin rs r). split; [reflexivity|]. split.
    + intros p Hp. exact (LayerFacts.amin0_le (r :: rs) _ p eq_refl Hp).
    + apply fold_vmin_attained.
Qed.

Lemma origin_is_minimum_witness :
  exists o, origin MetadataFacts.grid_2x3 = Ok o /\ (o.1 == 0 /\ o.2 == 0)%Q.
Proof.
  destruct (origin_is_minimum MetadataFacts.grid_2x3 _
              MetadataFacts.grid_2x3_positions) as (o & Ho & _).
  exists o. split; [exact Ho|].
  rewrite LayerExamples.grid_2x3_origin in Ho. injection Ho as <-.
  split; reflexivity.
Defined.

(** X4. Where [positions] returns and the tile size is positive, [centers]
    returns one point per tile, and the point of each tile lies inside the
    rectangle of that tile. *)
Theorem centers_inside (self : t) (pos : list (vec2 Q))
    (Hpos : positions (_metadata self) = Ok pos)
    (Hy : 0 < (size self).1) (Hx : 0 < (size self).2) :
  exists cs,
    centers self = Ok cs /\
    length cs = length pos /\
    forall i p, pos !! i = Some p ->
      exists c, cs !! i = Some c /\ IntersectionFacts.in_tile (size self) p c.
Proof.
  unfold centers. rewrite Hpos. cbn [mbind result_bind].
  eexists. split; [reflexivity|]. split; [apply length_map|].
  intros i p Hi. eexists. split; [exact (LayerFacts.lookup_map _ _ _ _ Hi)|].
  unfold IntersectionFacts.in_tile, vadd, vzip, vinject, vmap. cbn [fst snd].
  assert (H1 : (0 < inject_Z (size self).1)%Q) by (change 0%Q with (inject_Z 0); rewrite <- Zlt_Qlt; exact Hy).
  assert (H2 : (0 < inject_Z (size self).2)%Q) by (change 0%Q with (inject_Z 0); rewrite <- Zlt_Qlt; exact Hx).
  set (sy := inject_Z (size self).1) in *. set (sx := inject_Z (size self).2) in *.
  assert (Ey : (sy / 2 == sy * (1 # 2))%Q) by (unfold Qdiv; reflexivity).
  assert (Ex : (sx / 2 == sx * (1 # 2))%Q) by (unfold Qdiv; reflexivity).
  rewrite Ey, Ex. repeat split; lra.
Qed.

Lemma centers_inside_witness :
  exists cs, centers IntersectionFacts.example_metadata = Ok cs /\ length cs = 6%nat.
Proof.
  destruct (centers_inside IntersectionFacts.example_metadata _
              MetadataFacts.grid_2x3_positions) as (cs & Hc & Hlen & _);
    [reflexivity | reflexivity |].
  exists cs. split; [exact Hc | exact Hlen].
Defined.

Lemma fold_set_add_length (l s : list Q) :
  (length s <= length (fold_left set_add l s) <= length s + length l)%nat.
Proof.
  revert s. induction l as [|x l IH]; intros s; cbn [fold_left length]; [lia|].
  specialize (IH (set_add s x)). unfold set_add in *.
  destruct (Qmem x s); cbn [length] in IH; lia.
Qed.

Lemma len_set_bounds (l : list Q) :
  l <> [] -> 1 <= len_set l <= Z.of_nat (length l).
Proof.
  intros Hl. unfold len_set, set_of.
  destruct l as [|x l]; [congruence|].
  cbn [fold_left]. change (set_add [] x) with [x].
  pose proof (fold_set_add_length l [x]) as H1. cbn [length] in *. lia.
Qed.

(** X5. [grid_dimensions] raises numpy's [ValueError] on a series without
    images; when it returns, the two counts multiply to the number of tiles
    and each lies between 1 and that number. *)
Theorem grid_dimensions_bounds (m : OMEXML) :
  (images m = [] ->
     grid_dimensions m
     = Raise (ValueError "need at least one array to concatenate")) /\
  (forall shape, grid_dimensions m = Ok shape ->
     shape.1 * shape.2 = Z.of_nat (num_images m) /\
     1 <= shape.1 <= Z.of_nat (num_images m) /\
     1 <= shape.2 <= Z.of_nat (num_images m)).
Proof.
  split.
  - intros Hm. unfold grid_dimensions.
    rewrite (positions_empty m Hm). reflexivity.
  - intros shape. unfold grid_dimensions.
    destruct (positions m) as [pos|e] eqn:Hpos; [|discriminate].
    cbn [mbind result_bind]. cbv zeta.
    destruct (Z.eqb_spec
                ((len_set (map (axis 0) pos), len_set (map (axis 1) pos)).1 *
                 (len_set (map (axis 0) pos), len_set (map (axis 1) pos)).2)
                (Z.of_nat (num_images m))) as [E|E]; [|discriminate].
    cbn [negb]. intros [= <-]. cbn [fst snd] in *.
    pose proof (MetadataFacts.positions_nonempty m pos Hpos) as Hne.
    pose proof (MetadataFacts.positions_length m pos Hpos) as Hlen.
    assert (Hne0 : map (axis 0) pos <> []) by (destruct pos; [congruence | discriminate]).
    assert (Hne1 : map (axis 1) pos <> []) by (destruct pos; [congruence | discriminate]).
    pose proof (len_set_bounds _ Hne0) as B0. pose proof (len_set_bounds _ Hne1) as B1.
    rewrite length_map, Hlen in B0, B1.
    split; [exact E|]. split; [exact B0 | exact B1].
Qed.

Lemma grid_dimensions_bounds_witness :
  grid_dimensions MetadataFacts.grid_2x3 = Ok (2, 3) /\
  2 * 3 = Z.of_nat (num_images MetadataFacts.grid_2x3) /\
  1 <= 2 <= Z.of_nat (num_images MetadataFacts.grid_2x3) /\
  1 <= 3 <= Z.of_nat (num_images MetadataFacts.grid_2x3).
Proof.
  split; [reflexivity|].
  exact (proj2 (grid_dimensions_bounds MetadataFacts.grid_2x3) (2, 3) eq_refl).
Defined.

End MetadataMore.

(** ** crop_like *)

Module ArrayMore.

Lemma crop_like_id {A B} (a : ndarray A) (target : ndarray B) :
  (nrows a <= nrows target)%nat -> (ncols a <= ncols target)%nat ->
  crop_like a target = a.
Proof.
  intros Hr Hc. unfold crop_like.
  replace (nrows target <? nrows a)%nat with false
    by (symmetry; apply Nat.ltb_ge; exact Hr).
  replace (ncols target <? ncols a)%nat with false
    by (symmetry; apply Nat.ltb_ge; exact Hc).
  reflexivity.
Qed.

(** X6. [crop_like] returns the leading part of the image that fits the
    target: its shape is the smaller of the two shapes on each axis and its
    elements are those of the image at the same indices; an image that
    already fits is returned as it is, so cropping twice is cropping once. *)
Theorem crop_like_fits {A B} (img : ndarray A) (target : ndarray B) :
  shape (crop_like img target)
    = (Nat.min (nrows img) (nrows target), Nat.min (ncols img) (ncols target)) /\
  (forall y x, item (crop_like img target) y x = item img y x) /\
  ((nrows img <= nrows target)%nat -> (ncols img <= ncols target)%nat ->
     crop_like img target = img) /\
  crop_like (crop_like img target) target = crop_like img target.
Proof.
  assert (Hshape : shape (crop_like img target)
            = (Nat.min (nrows img) (nrows target),
               Nat.min (ncols img) (ncols target))).
  { unfold crop_like, shape.
    PasteFacts.nat_cases;
      cbn [getslice view sub whole slice_start slice_stop nrows ncols item wy wx wh ww] in *;
      rewrite ?PasteFacts.slice_bound_nonneg in * by lia; f_equal; lia. }
  split; [exact Hshape|]. split.
  { intros y x. unfold crop_like. PasteFacts.nat_cases; reflexivity. }
  split; [apply crop_like_id|].
  unfold shape in Hshape. injection Hshape as Hr Hc.
  apply crop_like_id; lia.
Qed.

Lemma crop_like_fits_witness :
  shape (crop_like PasteExamples.img0 (NdArray 2 5 (fun _ _ => 0))) = (2, 3)%nat /\
  crop_like PasteExamples.img0 (NdArray 4 3 (fun _ _ => 0)) = PasteExamples.img0.
Proof.
  split.
  - exact (proj1 (crop_like_fits PasteExamples.img0 (NdArray 2 5 (fun _ _ => 0)))).
  - apply (crop_like_fits PasteExamples.img0 (NdArray 4 3 (fun _ _ => 0)));
      cbn; lia.
Defined.

End ArrayMore.

(** ** The overlap rectangle, continued *)

Module IntersectionMore.
Import EdgeAligner IntersectionFacts.

Section Pair.
Variable self : t.
Variable pos : list (vec2 Q).
Hypothesis Hpos :
  Metadata.positions (Metadata._metadata (metadata (reader self))) = Ok pos.

Lemma extent_swap (p1 p2 s : vec2 Q) :
  vmap Qceiling (vsub (vmin (vadd p1 s) (vadd p2 s)) (vmax p1 p2))
  = vmap Qceiling (vsub (vmin (vadd p2 s) (vadd p1 s)) (vmax p2 p1)).
Proof.
  unfold vmap, vsub, vmin, vmax, vadd, vzip. cbn [fst snd].
  f_equal; apply Qceiling_comp;
    rewrite (Q.min_comm (_ + _) (_ + _)), (Q.max_comm _ _); reflexivity.
Qed.

(** X7. [intersection] does not depend on the order of the two tiles, up
    to their roles: the swapped call raises the same exception, or returns
    the same shape with the two offsets exchanged. *)
Theorem intersection_swap (t1 t2 : nat) :
  (forall e, intersection self t1 t2 = Raise e ->
             intersection self t2 t1 = Raise e) /\
  (forall o1 o2 sh, intersection self t1 t2 = Ok (o1, o2, sh) ->
     exists o1' o2',
       intersection self t2 t1 = Ok (o1', o2', sh) /\
       (o1'.1 == o2.1 /\ o1'.2 == o2.2)%Q /\
       (o2'.1 == o1.1 /\ o2'.2 == o1.2)%Q).
Proof.
  destruct (pos !! t1) as [p1|] eqn:H1, (pos !! t2) as [p2|] eqn:H2.
  - rewrite (intersection_unfold self t1 t2 pos p1 p2 Hpos H1 H2).
    rewrite (intersection_unfold self t2 t1 pos p2 p1 Hpos H2 H1).
    cbv zeta. rewrite <- (extent_swap p1 p2).
    destruct (_ && _); split; try discriminate.
    + intros o1 o2 sh [= <- <- <-]. eexists. eexists.
      split; [reflexivity|].
      unfold vsub, vmax, vzip. cbn [fst snd].
      rewrite !(Q.max_comm p2.1 p1.1), !(Q.max_comm p2.2 p1.2).
      repeat split; reflexivity.
    + intros e H. exact H.
  - split; [|intros o1 o2 sh H; apply intersection_ok_inv in H
                as (pos' & q1 & q2 & Hp' & Hq1 & Hq2); congruence].
    intros e. unfold intersection, getitem. rewrite Hpos.
    cbn [mbind result_bind]. rewrite H1, H2. cbn [mbind result_bind].
    intros H. exact H.
  - split; [|intros o1 o2 sh H; apply intersection_ok_inv in H
                as (pos' & q1 & q2 & Hp' & Hq1 & Hq2); congruence].
    intros e. unfold intersection, getitem. rewrite Hpos.
    cbn [mbind result_bind]. rewrite H1, H2. cbn [mbind result_bind].
    intros H. exact H.
  - split; [|intros o1 o2 sh H; apply intersection_ok_inv in H
                as (pos' & q1 & q2 & Hp' & Hq1 & Hq2); congruence].
    intros e. unfold intersection, getitem. rewrite Hpos.
    cbn [mbind result_bind]. rewrite H1, H2. cbn [mbind result_bind].
    intros H. exact H.
Qed.

(** X10. For a tile index outside the series, [intersection] raises
    [IndexError], whatever the other tile is. *)
Theorem intersection_index_error (t1 t2 : nat) :
  (length pos <= t1)%nat \/ (length pos <= t2)%nat ->
  intersection self t1 t2 = Raise IndexError.
Proof.
  intros Hout. unfold intersection, getitem. rewrite Hpos.
  cbn [mbind result_bind].
  destruct (pos !! t1) as [p1|] eqn:H1; [|reflexivity].
  cbn [mbind result_bind].
  destruct (pos !! t2) as [p2|] eqn:H2; [|reflexivity].
  apply lookup_lt_Some in H1, H2. lia.
Qed.

Lemma ceiling_pos (q : Q) : 0 < Qceiling q -> (0 < q)%Q.
Proof.
  intros H. pose proof (Qceiling_lt q) as Hlt.
  apply Qle_lt_trans with (inject_Z (Qceiling q - 1)); [|exact Hlt].
  change 0%Q with (inject_Z 0). rewrite <- Zle_Qle. lia.
Qed.

(** X8. For two tiles that intersect, the returned shape does not exceed
    the tile size on either axis, and each returned offset is greater than
    minus the tile size: shifting a tile by its offset keeps part of the
    tile in view. *)
Theorem intersection_within_tile (t1 t2 : nat) (o1 o2 : vec2 Q) (sh : vec2 Z)
    (Hok : intersection self t1 t2 = Ok (o1, o2, sh)) :
  let size := Metadata.size (metadata (reader self)) in
  (sh.1 <= size.1 /\ sh.2 <= size.2) /\
  (- inject_Z size.1 < o1.1 /\ - inject_Z size.2 < o1.2)%Q /\
  (- inject_Z size.1 < o2.1 /\ - inject_Z size.2 < o2.2)%Q.
Proof.
  intros size.
  destruct (intersection_ok_inv _ _ _ _ Hok) as (pos' & p1 & p2 & Hp' & H1 & H2).
  rewrite (intersection_unfold self t1 t2 pos' p1 p2 Hp' H1 H2) in Hok.
  cbv zeta in Hok. fold size in Hok.
  match type of Hok with
  | (if ?b then _ else _) = _ => destruct b eqn:Hb; [|discriminate Hok]
  end.
  injection Hok as <- <- <-.
  apply andb_true_iff in Hb as [Hh Hw]. apply Z.ltb_lt in Hh, Hw.
  unfold vinject in *.
  unfold vmap, vsub, vmin, vmax, vadd, vzip in *. cbn [fst snd] in *.
  set (sy := inject_Z size.1) in *. set (sx := inject_Z size.2) in *.
  pose proof (ceiling_pos _ Hh) as Py. pose proof (ceiling_pos _ Hw) as Px.
  pose proof (Q.le_min_l (p1.1 + sy) (p2.1 + sy)).
  pose proof (Q.le_min_r (p1.1 + sy) (p2.1 + sy)).
  pose proof (Q.le_min_l (p1.2 + sx) (p2.2 + sx)).
  pose proof (Q.le_min_r (p1.2 + sx) (p2.2 + sx)).
  pose proof (Q.le_max_l p1.1 p2.1). pose proof (Q.le_max_r p1.1 p2.1).
  pose proof (Q.le_max_l p1.2 p2.2). pose proof (Q.le_max_r p1.2 p2.2).
  assert (My : (Qmax p1.1 p2.1 <= p1.1 \/ Qmax p1.1 p2.1 <= p2.1)%Q)
    by (destruct (Q.max_dec p1.1 p2.1) as [E|E]; [left|right]; rewrite E; lra).
  assert (Mx : (Qmax p1.2 p2.2 <= p1.2 \/ Qmax p1.2 p2.2 <= p2.2)%Q)
    by (destruct (Q.max_dec p1.2 p2.2) as [E|E]; [left|right]; rewrite E; lra).
  split; [|split].
  - split.
    + rewrite <- (Qceiling_Z size.1). apply Qceiling_resp_le. fold sy. lra.
    + rewrite <- (Qceiling_Z size.2). apply Qceiling_resp_le. fold sx. lra.
  - split; [destruct My | destruct Mx]; lra.
  - split; [destruct My | destruct Mx]; lra.
Qed.

(** X9. A tile intersects itself in the whole tile: for a tile index of
    the series and a positive tile size, [intersection t t] returns the
    tile size as shape and offsets equal to zero; with a size that is not
    positive it raises its [ValueError]. *)
Theorem intersection_self (t : nat) (p : vec2 Q) (Ht : pos !! t = Some p) :
  let size := Metadata.size (metadata (reader self)) in
  (0 < size.1 /\ 0 < size.2 ->
     exists o1 o2,
       intersection self t t = Ok (o1, o2, size) /\
       (o1.1 == 0 /\ o1.2 == 0 /\ o2.1 == 0 /\ o2.2 == 0)%Q) /\
  (~ (0 < size.1 /\ 0 < size.2) ->
     intersection self t t = Raise (ValueError "Tiles do not intersect")).
Proof.
  intros size.
  rewrite (intersection_unfold self t t pos p p Hpos Ht Ht). cbv zeta. fold size.
  assert (E : vmap Qceiling (vsub (vmin (vadd p (vinject size)) (vadd p (vinject size)))
                                  (vmax p p)) = size).
  { unfold vinject. unfold vmap, vsub, vmin, vmax, vadd, vzip. cbn [fst snd].
    rewrite (surjective_pairing size) at 5. f_equal.
    - transitivity (Qceiling (inject_Z size.1)); [|apply Qceiling_Z].
      apply Qceiling_comp. rewrite Q.min_id, Q.max_id. ring.
    - transitivity (Qceiling (inject_Z size.2)); [|apply Qceiling_Z].
      apply Qceiling_comp. rewrite Q.min_id, Q.max_id. ring. }
  rewrite E. split.
  - intros [Hy Hx]. apply Z.ltb_lt in Hy, Hx. rewrite Hy, Hx. cbn [andb].
    eexists. eexists. split; [reflexivity|].
    unfold vsub, vmax, vzip. cbn [fst snd]. rewrite !Q.max_id.
    repeat split; ring.
  - intros Hn. destruct (Z.ltb_spec 0 size.1), (Z.ltb_spec 0 size.2);
      try reflexivity.
    exfalso. apply Hn. split; assumption.
Qed.

End Pair.

Lemma intersection_swap_witness :
  exists o1 o2 o1' o2' sh,
    intersection example_aligner 0 1 = Ok (o1, o2, sh) /\
    intersection example_aligner 1 0 = Ok (o1', o2', sh) /\
    (o1'.2 == o2.2)%Q /\ (o2'.2 == o1.2)%Q.
Proof.
  destruct (proj2 (intersection_swap example_aligner _
                     MetadataFacts.grid_2x3_positions 0 1) _ _ _ eq_refl)
    as (o1' & o2' & H & [_ Ha] & [_ Hb]).
  eexists. eexists. exists o1', o2'. eexists.
  split; [reflexivity|]. split; [exact H|]. split; [exact Ha | exact Hb].
Defined.

Lemma intersection_index_error_witness :
  intersection example_aligner 6 0 = Raise IndexError.
Proof.
  apply (intersection_index_error example_aligner _
           MetadataFacts.grid_2x3_positions 6 0).
  left. cbn. lia.
Defined.

Lemma intersection_within_tile_witness :
  exists o1 o2 sh,
    intersection example_aligner 0 1 = Ok (o1, o2, sh) /\
    sh.2 <= 100 /\ (- inject_Z 100 < o1.2)%Q.
Proof.
  eexists. eexists. eexists. split; [reflexivity|].
  destruct (intersection_within_tile example_aligner 0 1 _ _ _ eq_refl)
    as ([_ Hs] & [_ Ho] & _).
  split; [exact Hs | exact Ho].
Defined.

Lemma intersection_self_witness :
  exists o1 o2,
    intersection example_aligner 3 3 = Ok (o1, o2, (100, 100)) /\
    (o1.1 == 0 /\ o1.2 == 0 /\ o2.1 == 0 /\ o2.2 == 0)%Q.
Proof.
  apply (intersection_self example_aligner _ MetadataFacts.grid_2x3_positions
           3 _ eq_refl).
  split; reflexivity.
Defined.

End IntersectionMore.

(** ** Crops and registration, continued *)

Module RegisterMore.
Import EdgeAligner IntersectionFacts RegisterFacts RegisterTheorems.

Lemma intersection_shape_pos (s : t) (t1 t2 : nat) (o1 o2 : vec2 Q) (sh : vec2 Z) :
  intersection s t1 t2 = Ok (o1, o2, sh) -> 0 < sh.1 /\ 0 < sh.2.
Proof.
  intros Hok.
  destruct (intersection_ok_inv _ _ _ _ Hok) as (pos & p1 & p2 & Hp & H1 & H2).
  rewrite (intersection_unfold s t1 t2 pos p1 p2 Hp H1 H2) in Hok.
  cbv zeta in Hok.
  match type of Hok with
  | (if ?b then _ else _) = _ => destruct b eqn:Hb; [|discriminate Hok]
  end.
  injection Hok as _ _ <-.
  apply andb_true_iff in Hb as [Hh Hw]. apply Z.ltb_lt in Hh, Hw. auto.
Qed.

Section WithLibrary.
Context `{L : Library} {laws : LibraryLaws L}.

Lemma cropped_spec (r : Reader) (tile : nat) (offset : vec2 Q) (sh : vec2 Z) :
  0 < sh.1 -> 0 < sh.2 ->
  shape (cropped r tile offset sh)
    = (Nat.min (Z.to_nat sh.1) (nrows (ir r 0%nat tile)),
       Nat.min (Z.to_nat sh.2) (ncols (ir r 0%nat tile))) /\
  forall y x, (0 <= item (cropped r tile offset sh) y x /\
               item (cropped r tile offset sh) y x <= 1)%Q.
Proof.
  intros Hh Hw. split.
  - pose proof (ndimage_shift_shape (flipud (ir r 0%nat tile)) offset) as Hs.
    unfold shape in Hs. cbn [flipud nrows ncols] in Hs. injection Hs as Hr Hc.
    unfold cropped, clip, amap, shape.
    cbn [getslice view sub whole slice_start slice_stop nrows ncols wy wx wh ww].
    rewrite !PasteFacts.slice_bound_nonneg by lia.
    rewrite Hr, Hc. f_equal; lia.
  - intros y x. unfold cropped, clip, amap. cbn [item].
    apply PasteFacts.Qclip_range.
Qed.

(** X11. [overlap] raises what [intersection] raises; otherwise it reads
    the plane of [t1] and then the plane of [t2], both on channel 0, leaves
    the aligner as it is, and returns two crops whose values lie in [0, 1]
    and whose shape is the overlap shape, cut to the shape of the plane
    where the plane is smaller. *)
Theorem overlap_crops (t1 t2 : nat) (w : world) :
  (forall e, intersection (self w) t1 t2 = Raise e ->
             overlap t1 t2 w = Raise e) /\
  (forall o1 o2 sh, intersection (self w) t1 t2 = Ok (o1, o2, sh) ->
     exists img1 img2 w',
       overlap t1 t2 w = Ok ((img1, img2), w') /\
       self w' = self w /\
       planes_read w' = (t2, 0%nat) :: (t1, 0%nat) :: planes_read w /\
       shape img1 = (Nat.min (Z.to_nat sh.1) (nrows (ir (reader (self w)) 0%nat t1)),
                     Nat.min (Z.to_nat sh.2) (ncols (ir (reader (self w)) 0%nat t1))) /\
       shape img2 = (Nat.min (Z.to_nat sh.1) (nrows (ir (reader (self w)) 0%nat t2)),
                     Nat.min (Z.to_nat sh.2) (ncols (ir (reader (self w)) 0%nat t2))) /\
       forall y x, (0 <= item img1 y x /\ item img1 y x <= 1)%Q /\
                   (0 <= item img2 y x /\ item img2 y x <= 1)%Q).
Proof.
  rewrite overlap_run. split.
  - intros e ->. reflexivity.
  - intros o1 o2 sh Hok. rewrite Hok.
    destruct (intersection_shape_pos _ _ _ _ _ _ Hok) as [Hh Hw].
    destruct (cropped_spec (reader (self w)) t1 o1 sh Hh Hw) as [S1 R1].
    destruct (cropped_spec (reader (self w)) t2 o2 sh Hh Hw) as [S2 R2].
    eexists. eexists. eexists. split; [reflexivity|].
    split; [reflexivity|]. split; [reflexivity|].
    split; [exact S1|]. split; [exact S2|].
    intros y x. split; [apply R1 | apply R2].
Qed.

End WithLibrary.

Section Registration.
Context `{L : Library}.

(** X12. [register] raises exactly when the pair is not in the cache and
    [intersection] raises, and then with the exception of [intersection]:
    a cached pair is answered without looking at the geometry. *)
Theorem register_raises (t1 t2 : nat) (w : world) (e : exn) :
  register t1 t2 w = Raise e <->
  _cache (self w) !! sorted_pair t1 t2 = None /\
  intersection (self w) t1 t2 = Raise e.
Proof.
  destruct (_cache (self w) !! sorted_pair t1 t2) as [entry|] eqn:Hc.
  - rewrite (register_hit _ _ _ _ Hc). split; [discriminate | intros [H _]; discriminate].
  - rewrite (register_miss _ _ _ Hc), overlap_run.
    destruct (intersection (self w) t1 t2) as [[[o1 o2] sh]|e'].
    + cbv zeta. split; [discriminate | intros [_ H]; discriminate].
    + split; [intros [= ->]; auto | intros [_ [= ->]]; reflexivity].
Qed.

Lemma out_of_bounds_same (s s' : t) (shift : vec2 Q) :
  reader s' = reader s -> max_shift s' = max_shift s ->
  out_of_bounds s' shift <-> out_of_bounds s shift.
Proof. unfold out_of_bounds. intros -> ->. reflexivity. Qed.

Lemma out_of_bounds_neg (s : t) (shift : vec2 Q) :
  out_of_bounds s (vneg shift) <-> out_of_bounds s shift.
Proof.
  unfold out_of_bounds, vneg, vmap. cbn [fst snd]. rewrite !Qabs_opp. reflexivity.
Qed.

(** Every shift in the cache is within the bound of the aligner. *)
Definition cache_in_bounds (s : t) : Prop :=
  forall k entry, _cache s !! k = Some entry -> ~ out_of_bounds s entry.1.

(** X13. When the bound [max_shift * size] is not negative, [register]
    keeps the cache within bounds: if no cached shift exceeds the bound
    before the call, none does after it, and the returned shift does not
    exceed it either. *)
Theorem register_in_bounds (t1 t2 : nat) (w w1 : world) (r : vec2 Q * Q)
    (Hzero : ~ out_of_bounds (self w) (0, 0)%Q)
    (Hcache : cache_in_bounds (self w))
    (Hreg : register t1 t2 w = Ok (r, w1)) :
  ~ out_of_bounds (self w1) r.1 /\ cache_in_bounds (self w1).
Proof.
  destruct (_cache (self w) !! sorted_pair t1 t2) as [entry|] eqn:Hc.
  - rewrite (register_hit _ _ _ _ Hc) in Hreg. injection Hreg as <- <-.
    split; [|exact Hcache].
    unfold oriented. cbn [fst]. destruct (t2 <? t1)%nat;
      rewrite ?out_of_bounds_neg; exact (Hcache _ _ Hc).
  - rewrite (register_miss _ _ _ Hc) in Hreg.
    destruct (overlap t1 t2 w) as [[[img1 img2] w']|e] eqn:Ho; [|discriminate].
    cbv zeta in Hreg. injection Hreg as <- <-.
    pose proof (overlap_self _ _ _ _ _ Ho) as Hs.
    rewrite Hs.
    assert (Hentry : ~ out_of_bounds (self w) (estimate (self w) img1 img2).1).
    { unfold estimate.
      destruct (register_translation (whiten img1) (whiten img2) 10)
        as [[shift error] pd].
      destruct (exceeds (self w) shift) eqn:E; cbn [fst]; [exact Hzero|].
      intros Hb. apply exceeds_spec in Hb. congruence. }
    assert (Hsame : forall shift,
              out_of_bounds
                (self (cache_store (sorted_pair t1 t2)
                         (estimate (self w) img1 img2) w')) shift
              <-> out_of_bounds (self w) shift).
    { intros shift. apply out_of_bounds_same; cbn; rewrite Hs; reflexivity. }
    split.
    + rewrite Hsame. unfold oriented. cbn [fst].
      destruct (t2 <? t1)%nat; rewrite ?out_of_bounds_neg; exact Hentry.
    + intros k entry Hk. rewrite Hsame. cbn in Hk. rewrite Hs in Hk.
      destruct (decide (sorted_pair t1 t2 = k)) as [<-|Hne].
      * rewrite lookup_insert_eq in Hk. injection Hk as <-. exact Hentry.
      * rewrite lookup_insert_ne in Hk by exact Hne. exact (Hcache _ _ Hk).
Qed.

(** X14. [register] changes nothing of the aligner but the cache, to
    which it adds at most the sorted key of the queried pair; so the keys of
    the cache stay sorted pairs. *)
Theorem register_frame (t1 t2 : nat) (w w1 : world) (r : vec2 Q * Q)
    (Hreg : register t1 t2 w = Ok (r, w1)) :
  reader (self w1) = reader (self w) /\
  max_shift (self w1) = max_shift (self w) /\
  dom (_cache (self w1)) = {[ sorted_pair t1 t2 ]} ∪ dom (_cache (self w)) /\
  ((forall k, k ∈ dom (_cache (self w)) -> (k.1 <= k.2)%nat) ->
   forall k, k ∈ dom (_cache (self w1)) -> (k.1 <= k.2)%nat).
Proof.
  assert (Hsorted : ((sorted_pair t1 t2).1 <= (sorted_pair t1 t2).2)%nat).
  { unfold sorted_pair. destruct (Nat.ltb_spec t2 t1); cbn [fst snd]; lia. }
  assert (Hmain : reader (self w1) = reader (self w) /\
                  max_shift (self w1) = max_shift (self w) /\
                  dom (_cache (self w1))
                  = {[ sorted_pair t1 t2 ]} ∪ dom (_cache (self w))).
  { destruct (_cache (self w) !! sorted_pair t1 t2) as [entry|] eqn:Hc.
    - rewrite (register_hit _ _ _ _ Hc) in Hreg. injection Hreg as _ <-.
      split; [reflexivity|]. split; [reflexivity|].
      symmetry. apply subseteq_union_1_L, singleton_subseteq_l.
      apply elem_of_dom. eauto.
    - rewrite (register_miss _ _ _ Hc) in Hreg.
      destruct (overlap t1 t2 w) as [[[img1 img2] w']|e] eqn:Ho; [|discriminate].
      cbv zeta in Hreg. injection Hreg as _ <-.
      pose proof (overlap_self _ _ _ _ _ Ho) as Hs.
      cbn. rewrite Hs. split; [reflexivity|]. split; [reflexivity|].
      apply dom_insert_L. }
  destruct Hmain as (Hr & Hm & Hd).
  split; [exact Hr|]. split; [exact Hm|]. split; [exact Hd|].
  intros Hall k Hk. rewrite Hd in Hk.
  apply elem_of_union in Hk as [Hk|Hk].
  - apply elem_of_singleton in Hk. subst k. exact Hsorted.
  - exact (Hall k Hk).
Qed.

End Registration.

Lemma overlap_crops_witness :
  exists img1 img2 w',
    overlap (L := Toy.library Toy.near) 0 1 Toy.world0 = Ok ((img1, img2), w') /\
    planes_read w' = [(1, 0); (0, 0)]%nat /\
    shape img1 = (100, 10)%nat /\ shape img2 = (100, 10)%nat.
Proof.
  destruct (proj2 (overlap_crops (laws := Toy.library_laws Toy.near)
                     0 1 Toy.world0) _ _ _ eq_refl)
    as (img1 & img2 & w' & Ho & _ & Hlog & S1 & S2 & _).
  exists img1, img2, w'.
  split; [exact Ho|]. split; [exact Hlog|]. split; [exact S1 | exact S2].
Defined.

Lemma register_raises_witness :
  register (L := Toy.library Toy.near) 0 2 Toy.world0
  = Raise (ValueError "Tiles do not intersect").
Proof.
  apply (register_raises (L := Toy.library Toy.near) 0 2 Toy.world0).
  split; reflexivity.
Defined.

Lemma world0_zero_in_bounds : ~ out_of_bounds (self Toy.world0) (0, 0)%Q.
Proof. intros [H|H]; vm_compute in H; discriminate H. Qed.

Lemma world0_cache_in_bounds : cache_in_bounds (self Toy.world0).
Proof. intros k entry Hk. cbn in Hk. rewrite lookup_empty in Hk. discriminate. Qed.

Lemma register_in_bounds_witness :
  register (L := Toy.library Toy.far) 1 0 Toy.world0
    = Ok (((0, 0), 1)%Q, Toy.world1 1 0 ((0, 0), 1)%Q) /\
  ~ out_of_bounds (self (Toy.world1 1 0 ((0, 0), 1)%Q)) (0, 0)%Q /\
  cache_in_bounds (self (Toy.world1 1 0 ((0, 0), 1)%Q)).
Proof.
  split; [reflexivity|].
  apply (register_in_bounds (L := Toy.library Toy.far) 1 0 Toy.world0 _
           ((0, 0), 1)%Q world0_zero_in_bounds world0_cache_in_bounds).
  reflexivity.
Defined.

Lemma register_frame_witness :
  register (L := Toy.library Toy.near) 1 0 Toy.world0
    = Ok ((vneg Toy.near.1, Toy.near.2), Toy.world1 1 0 Toy.near) /\
  dom (_cache (self (Toy.world1 1 0 Toy.near)))
  = {[ (0, 1)%nat ]} ∪ dom (_cache (self Toy.world0)).
Proof.
  split; [reflexivity|].
  apply (register_frame (L := Toy.library Toy.near) 1 0 Toy.world0
           (Toy.world1 1 0 Toy.near) (vneg Toy.near.1, Toy.near.2) eq_refl).
Defined.

End RegisterMore.

(** ** LayerAligner, continued *)

Module LayerMore.
Import LayerAligner.

Lemma Qtrunc_zero (q : Q) : (q == 0)%Q -> Qtrunc q = 0.
Proof.
  intros Hq. rewrite PasteFacts.Qtrunc_nonneg by (rewrite Hq; apply Qle_refl).
  rewrite (Qfloor_comp q 0 Hq). reflexivity.
Qed.

(** X15. [LayerAligner.__init__] raises what [positions] raises (so it
    raises on a series without images); otherwise it stores one integer
    position per tile, none of them negative, and on each axis some tile is
    stored at 0. *)
Theorem layer_init_spec (rd : Reader) (ref : ndarray Q) :
  let md := Metadata._metadata (metadata rd) in
  (forall e, Metadata.positions md = Raise e -> __init__ rd ref = Raise e) /\
  (forall pos, Metadata.positions md = Ok pos ->
     exists self,
       __init__ rd ref = Ok self /\
       reader self = rd /\ reference_image self = ref /\
       length (positions self) = length pos /\
       (forall p, In p (positions self) -> 0 <= p.1 /\ 0 <= p.2) /\
       (exists p, In p (positions self) /\ p.1 = 0) /\
       (exists p, In p (positions self) /\ p.2 = 0)).
Proof.
  intros md. split.
  - intros e He. unfold __init__. fold md. rewrite He. reflexivity.
  - intros pos Hpos. unfold __init__, Metadata.origin. fold md. rewrite Hpos.
    cbn [mbind result_bind].
    destruct pos as [|r rs].
    { exfalso. exact (MetadataFacts.positions_nonempty md [] Hpos eq_refl). }
    cbn [amin0 mbind result_bind].
    set (o := fold_left vmin rs r).
    eexists. split; [reflexivity|]. cbn [reader reference_image positions].
    split; [reflexivity|]. split; [reflexivity|]. split; [apply length_map|].
    split; [|split].
    + intros p Hp. apply in_map_iff in Hp as [q [<- Hq]].
      pose proof (LayerFacts.amin0_le (r :: rs) o q eq_refl Hq) as [H1 H2].
      unfold vmap, vsub, vzip. cbn [fst snd].
      rewrite !PasteFacts.Qtrunc_nonneg by lra.
      split; (change 0 with (Qfloor 0); apply Qfloor_resp_le; lra).
    + destruct (MetadataMore.fold_vmin_attained rs r) as [[q [Hq E]] _].
      fold o in E. exists (vmap Qtrunc (vsub q o)). split.
      * apply in_map_iff. exists q. split; [reflexivity | exact Hq].
      * unfold vmap, vsub, vzip. cbn [fst snd]. apply Qtrunc_zero. rewrite E. ring.
    + destruct (MetadataMore.fold_vmin_attained rs r) as [_ [q [Hq E]]].
      fold o in E. exists (vmap Qtrunc (vsub q o)). split.
      * apply in_map_iff. exists q. split; [reflexivity | exact Hq].
      * unfold vmap, vsub, vzip. cbn [fst snd]. apply Qtrunc_zero. rewrite E. ring.
Qed.

Lemma layer_init_spec_witness :
  exists self,
    __init__ IntersectionFacts.example_reader LayerExamples.ref0 = Ok self /\
    length (positions self) = 6%nat.
Proof.
  destruct (proj2 (layer_init_spec IntersectionFacts.example_reader
                     LayerExamples.ref0) _ MetadataFacts.grid_2x3_positions)
    as (self & Hinit & _ & _ & Hlen & _).
  exists self. split; [exact Hinit | exact Hlen].
Defined.

Section Register.
Context `{L : Library} {laws : LibraryLaws L}.


(** X17. When the tile, placed at its stored position, lies within the
    reference image, [register] correlates the whole tile image with the
    window of the reference image under it: the window has the shape of the
    tile image and nothing is cut off the tile image. *)
Theorem layer_register_fits (self : t) (tile : nat) (sy sx : Z)
    (log : list (nat * nat))
    (Hp : positions self !! tile = Some ((sy, sx) : vec2 Z))
    (Hsy : 0 <= sy) (Hsx : 0 <= sx) :
  let img := flipud (ir (reader self) 0%nat tile) in
  let ref := reference_image self in
  sy + Z.of_nat (nrows img) <= Z.of_nat (nrows ref) ->
  sx + Z.of_nat (ncols img) <= Z.of_nat (ncols ref) ->
  let window :=
    getslice ref (Some sy) (Some (sy + Z.of_nat (nrows img)))
                 (Some sx) (Some (sx + Z.of_nat (ncols img))) in
  shape window = shape img /\
  (forall y x, item window y x
               = item ref (Z.to_nat sy + y)%nat (Z.to_nat sx + x)%nat) /\
  register self tile log =
    (let '(shift, error, _) := register_translation (whiten window) (whiten img) 10 in
     Ok ((vadd (vinject (sy, sx)) shift, error), (tile, 0%nat) :: log)).
Proof.
  intros img ref Hy Hx window.
  assert (Hshape : shape window = shape img).
  { unfold window, shape.
    cbn [getslice view sub whole slice_start slice_stop nrows ncols wy wx wh ww].
    rewrite !PasteFacts.slice_bound_nonneg by lia. f_equal; lia. }
  split; [exact Hshape|]. split.
  { intros y x. unfold window.
    cbn [getslice view sub whole slice_start slice_stop item wy wx wh ww].
    rewrite !PasteFacts.slice_bound_nonneg by lia. f_equal; lia. }
  unfold register, Reader_read, mbind, io_bind, io_modify, io_lift, mret, io_ret,
    getitem.
  rewrite Hp. fold img. unfold shape. fold ref. fold window.
  assert (Hfit : crop_like img (whiten window) = img).
  { assert (Hw : shape (whiten window) = shape img)
      by (unfold whiten; rewrite laplace_shape; exact Hshape).
    unfold shape in Hw. injection Hw as Hr Hc.
    apply ArrayMore.crop_like_id; [rewrite Hr | rewrite Hc]; apply Nat.le_refl. }
  rewrite Hfit.
  destruct (register_translation (whiten window) (whiten img) 10) as [[shift error] pd].
  reflexivity.
Qed.

End Register.


Lemma layer_register_fits_witness :
  shape LayerExamples.window1 = (100, 100)%nat /\
  register (H := Toy.library Toy.near) LayerExamples.layer0 1 []
  = Ok ((vadd (vinject (0, 90)) Toy.near.1, Toy.near.2), [(1, 0)%nat]).
Proof.
  destruct (layer_register_fits (laws := Toy.library_laws Toy.near)
              LayerExamples.layer0 1 0 90 [] eq_refl ltac:(lia) ltac:(lia))
    as (Hs & _ & Hr); [cbn; lia | cbn; lia |].
  split; [exact Hs | exact Hr].
Defined.

End LayerMore.

(** ** paste, continued *)

Module PasteMore.
Import PasteFacts.

(** The rectangle of the canvas that [paste] writes: it starts at the
    integer position, or at 0 where that is negative, and holds what is
    left of the source after the leading rows and columns are dropped and
    the canvas ends. *)
Definition region (target : uint_array) (img : ndarray Q) (pos : vec2 Q) : window :=
  let yi := Qtrunc pos.1 in
  let xi := Qtrunc pos.2 in
  let top := Z.to_nat yi in
  let left := Z.to_nat xi in
  Window (Nat.min top (nrows (data target)))
         (Nat.min left (ncols (data target)))
         (Nat.min (nrows img - Z.to_nat (- yi)) (nrows (data target) - top))
         (Nat.min (ncols img - Z.to_nat (- xi)) (ncols (data target) - left)).

(** The pixel is on the one-pixel frame of the window. *)
Definition on_frame (v : window) (y x : nat) : bool :=
  inside v y x &&
  ((y =? wy v)%nat || (y =? wy v + wh v - 1)%nat ||
   (x =? wx v)%nat || (x =? wx v + ww v - 1)%nat).

(** Two canvases with the same type, shape and pixels. *)
Definition same_canvas (a b : uint_array) : Prop :=
  dtype a = dtype b /\ shape (data a) = shape (data b) /\
  forall y x, item (data a) y x = item (data b) y x.

Lemma region_same (t t' : uint_array) (img : ndarray Q) (pos : vec2 Q) :
  shape (data t') = shape (data t) -> region t' img pos = region t img pos.
Proof.
  unfold shape, region. intros [= -> ->]. reflexivity.
Qed.

Lemma inside_iff (v : window) (y x : nat) :
  inside v y x = true <->
  (wy v <= y < wy v + wh v)%nat /\ (wx v <= x < wx v + ww v)%nat.
Proof.
  unfold inside. rewrite !andb_true_iff, !Nat.leb_le, !Nat.ltb_lt. tauto.
Qed.

Lemma on_frame_iff (v : window) (y x : nat) :
  on_frame v y x = true <->
  ((wy v <= y < wy v + wh v)%nat /\ (wx v <= x < wx v + ww v)%nat) /\
  (y = wy v \/ y = (wy v + wh v - 1)%nat \/ x = wx v \/ x = (wx v + ww v - 1)%nat).
Proof.
  unfold on_frame. rewrite andb_true_iff, !orb_true_iff, inside_iff, !Nat.eqb_eq.
  tauto.
Qed.

Lemma brighten_elsewhere (w : result window) (s : uint_array * result unit)
    (y x : nat) :
  (forall w', w = Ok w' -> inside w' y x = false) ->
  item (data (brighten w s).1) y x = item (data s.1) y x.
Proof.
  intros Hw. destruct s as [t [[]|e]], w as [w'|e']; cbn [brighten fst];
    try reflexivity.
  rewrite iadd_item, (Hw w' eq_refl). reflexivity.
Qed.

Lemma row_window_on_frame (v w' : window) (i : Z) (y x : nat) :
  i = 0 \/ i = -1 ->
  sub_row v i None None = Ok w' -> inside w' y x = true -> on_frame v y x = true.
Proof.
  intros Hi. unfold sub_row, index_of.
  destruct ((- Z.of_nat (wh v) <=? i) && (i <? Z.of_nat (wh v))) eqn:E;
    [|discriminate].
  apply andb_true_iff in E as [E1 E2]. apply Z.leb_le in E1. apply Z.ltb_lt in E2.
  cbn [mbind result_bind sub slice_start slice_stop wy wx wh ww].
  intros [= <-]. rewrite inside_iff, on_frame_iff. cbn [wy wx wh ww].
  destruct Hi as [-> | ->]; cbn [Z.ltb Z.compare]; lia.
Qed.

Lemma col_window_on_frame (v w' : window) (j : Z) (y x : nat) :
  j = 0 \/ j = -1 ->
  sub_col v (Some 1) (Some (-1)) j = Ok w' ->
  inside w' y x = true -> on_frame v y x = true.
Proof.
  intros Hj. unfold sub_col, index_of.
  destruct ((- Z.of_nat (ww v) <=? j) && (j <? Z.of_nat (ww v))) eqn:E;
    [|discriminate].
  apply andb_true_iff in E as [E1 E2]. apply Z.leb_le in E1. apply Z.ltb_lt in E2.
  cbn [mbind result_bind sub slice_start slice_stop wy wx wh ww].
  intros [= <-]. rewrite inside_iff, on_frame_iff. cbn [wy wx wh ww].
  unfold slice_bound. cbn [Z.ltb Z.compare].
  destruct Hj as [-> | ->]; cbn [Z.ltb Z.compare]; lia.
Qed.

(** The outline touches the frame of the window only. *)
Lemma outline_frame_only (t : uint_array) (v : window) (y x : nat) :
  on_frame v y x = false ->
  item (data (outline t v).1) y x = item (data t) y x.
Proof.
  intros Hf. unfold outline. cbv zeta.
  rewrite !brighten_elsewhere; [reflexivity| | | |];
    intros w' Hw'; apply not_true_iff_false; intros Hin;
    apply not_true_iff_false in Hf; apply Hf.
  - exact (row_window_on_frame v w' 0 y x (or_introl eq_refl) Hw' Hin).
  - exact (row_window_on_frame v w' (-1) y x (or_intror eq_refl) Hw' Hin).
  - exact (col_window_on_frame v w' 0 y x (or_introl eq_refl) Hw' Hin).
  - exact (col_window_on_frame v w' (-1) y x (or_intror eq_refl) Hw' Hin).
Qed.

Section WithLibrary.
Context `{L : Library}.

(** What [convert] makes of the source on line 233: the converted image,
    or its exception. *)
Definition source_of (target : uint_array) (img : ndarray Q) (pos : vec2 Q)
  : result (ndarray Z) :=
  let '(img', yi', xi') := clip_to_mosaic img (Qtrunc pos.1) (Qtrunc pos.2) in
  dtype_convert
    (clamped_of target img' yi' xi'
       (pos.1 - inject_Z (Qtrunc pos.1), pos.2 - inject_Z (Qtrunc pos.2))%Q)
    (dtype target).

(** The slice that [paste] takes is [region]. *)
Lemma slice_of_region (target : uint_array) (img : ndarray Q) (pos : vec2 Q) :
  let '(img', yi', xi') := clip_to_mosaic img (Qtrunc pos.1) (Qtrunc pos.2) in
  slice_of target img' yi' xi' = region target img pos.
Proof.
  pose proof (clip_to_mosaic_spec img (Qtrunc pos.1) (Qtrunc pos.2)) as Hclip.
  destruct (clip_to_mosaic img (Qtrunc pos.1) (Qtrunc pos.2)) as [[img' yi'] xi'].
  destruct Hclip as (Hyi & Hxi & Hrows & Hcols & _).
  assert (Etop : Z.to_nat yi' = Z.to_nat (Qtrunc pos.1)) by (clear - Hyi; lia).
  assert (Eleft : Z.to_nat xi' = Z.to_nat (Qtrunc pos.2)) by (clear - Hxi; lia).
  assert (Hyi' : 0 <= yi') by (clear - Hyi; lia).
  assert (Hxi' : 0 <= xi') by (clear - Hxi; lia).
  destruct (slice_of_window target img' yi' xi' Hyi' Hxi') as (Hwy & Hwx & Hwh & Hww).
  cbv zeta in Hwy, Hwx, Hwh, Hww.
  rewrite Hrows, Etop in Hwh. rewrite Hcols, Eleft in Hww.
  rewrite Etop in Hwy. rewrite Eleft in Hwx.
  destruct (slice_of target img' yi' xi') as [a b c d].
  cbn [wy wx wh ww] in *. unfold region. congruence.
Qed.

(** [paste] in terms of [source_of] and [region]. *)
Lemma paste_run (target : uint_array) (img : ndarray Q) (pos : vec2 Q)
    (debug : bool) :
  paste target img pos debug =
  match source_of target img pos with
  | Ok px =>
      let out :=
        assign_data target (region target img pos)
          (maximum (view (data target) (region target img pos)) px) in
      if debug then outline out (region target img pos) else (out, Ok tt)
  | Raise e => (target, Raise e)
  end.
Proof.
  rewrite paste_unfold. unfold source_of.
  pose proof (slice_of_region target img pos) as Hv.
  destruct (clip_to_mosaic img (Qtrunc pos.1) (Qtrunc pos.2)) as [[img' yi'] xi'].
  rewrite composite_unfold, Hv.
  destruct (dtype_convert _ (dtype target)); reflexivity.
Qed.

(** What [paste] without the outline leaves in each pixel. *)
Lemma paste_item (target : uint_array) (img : ndarray Q) (pos : vec2 Q) (y x : nat) :
  item (data (paste target img pos false).1) y x =
  match source_of target img pos with
  | Ok px =>
      if inside (region target img pos) y x
      then Z.max (item (data target) y x)
                 (item px (y - wy (region target img pos))%nat
                          (x - wx (region target img pos))%nat)
      else item (data target) y x
  | Raise _ => item (data target) y x
  end.
Proof.
  rewrite paste_run.
  destruct (source_of target img pos) as [px|e]; [|reflexivity].
  cbv zeta. cbn [fst]. apply assign_maximum_item.
Qed.

Lemma outline_keeps_type (t : uint_array) (v : window) :
  dtype (outline t v).1 = dtype t /\
  shape (data (outline t v).1) = shape (data t).
Proof.
  unfold outline. cbv zeta.
  assert (Hb : forall w s, dtype (brighten w s).1 = dtype s.1 /\
                           shape (data (brighten w s).1) = shape (data s.1)).
  { intros w [s [[]|e]]; destruct w; cbn [brighten fst]; split; reflexivity. }
  repeat match goal with
         | |- context [brighten ?w ?s] =>
             destruct (Hb w s) as [-> ->]
         end.
  split; reflexivity.
Qed.

Lemma paste_keeps_type (target : uint_array) (img : ndarray Q) (pos : vec2 Q)
    (debug : bool) :
  dtype (paste target img pos debug).1 = dtype target /\
  shape (data (paste target img pos debug).1) = shape (data target).
Proof.
  rewrite paste_run.
  destruct (source_of target img pos) as [px|e]; [|split; reflexivity].
  cbv zeta. destruct debug; [|split; reflexivity].
  destruct (outline_keeps_type
              (assign_data target (region target img pos)
                 (maximum (view (data target) (region target img pos)) px))
              (region target img pos)) as [-> ->].
  split; reflexivity.
Qed.

(** The converted source depends on the canvas only through its shape and
    type. *)
Lemma source_of_same (t t' : uint_array) (img : ndarray Q) (pos : vec2 Q) :
  dtype t' = dtype t -> shape (data t') = shape (data t) ->
  source_of t' img pos = source_of t img pos.
Proof.
  intros Hd Hs. unfold source_of.
  destruct (clip_to_mosaic img (Qtrunc pos.1) (Qtrunc pos.2)) as [[img' yi'] xi'].
  assert (Hv : slice_of t' img' yi' xi' = slice_of t img' yi' xi').
  { unfold shape in Hs. injection Hs as Hr Hc.
    unfold slice_of, whole. rewrite Hr, Hc. reflexivity. }
  unfold clamped_of. rewrite Hv, Hd.
  rewrite (LayerFacts.crop_like_shape_only img'
             (view (data t') (slice_of t img' yi' xi'))
             (view (data t) (slice_of t img' yi' xi'))) by reflexivity.
  reflexivity.
Qed.

(** X18. [paste] without the outline keeps the type and the shape of the
    canvas and never lowers a pixel, whether it returns or raises. *)
Theorem paste_never_darkens (target : uint_array) (img : ndarray Q) (pos : vec2 Q) :
  dtype (paste target img pos false).1 = dtype target /\
  shape (data (paste target img pos false).1) = shape (data target) /\
  forall y x, item (data target) y x <= item (data (paste target img pos false).1) y x.
Proof.
  destruct (paste_keeps_type target img pos false) as [Hd Hs].
  split; [exact Hd|]. split; [exact Hs|].
  intros y x. rewrite paste_item.
  destruct (source_of target img pos) as [px|e]; [|lia].
  destruct (inside _ y x); lia.
Qed.

(** X19. Pasting the same image at the same position a second time
    changes nothing. *)
Theorem paste_idempotent (target : uint_array) (img : ndarray Q) (pos : vec2 Q) :
  let once := (paste target img pos false).1 in
  same_canvas (paste once img pos false).1 once.
Proof.
  intros once.
  destruct (paste_keeps_type target img pos false) as [Hd Hs]. fold once in Hd, Hs.
  destruct (paste_keeps_type once img pos false) as [Hd' Hs'].
  split; [exact Hd'|]. split; [exact Hs'|].
  intros y x. rewrite paste_item.
  rewrite (region_same target once img pos Hs).
  rewrite (source_of_same target once img pos Hd Hs).
  pose proof (paste_item target img pos y x) as Ho.
  fold once in Ho. rewrite Ho.
  destruct (source_of target img pos) as [px|e]; [|reflexivity].
  destruct (inside _ y x); [lia | reflexivity].
Qed.

(** X20. The order of two pastes does not matter: pasting [a] and then
    [b] gives the canvas that pasting [b] and then [a] gives. *)
Theorem paste_commutes (target : uint_array) (a b : ndarray Q) (pa pb : vec2 Q) :
  same_canvas (paste (paste target a pa false).1 b pb false).1
              (paste (paste target b pb false).1 a pa false).1.
Proof.
  destruct (paste_keeps_type target a pa false) as [Hda Hsa].
  destruct (paste_keeps_type target b pb false) as [Hdb Hsb].
  destruct (paste_keeps_type (paste target a pa false).1 b pb false) as [Hdab Hsab].
  destruct (paste_keeps_type (paste target b pb false).1 a pa false) as [Hdba Hsba].
  split; [congruence|]. split; [congruence|].
  intros y x.
  rewrite (paste_item (paste target a pa false).1 b pb y x).
  rewrite (paste_item (paste target b pb false).1 a pa y x).
  rewrite (region_same target _ b pb Hsa), (region_same target _ a pa Hsb).
  rewrite (source_of_same target _ b pb Hda Hsa).
  rewrite (source_of_same target _ a pa Hdb Hsb).
  rewrite (paste_item target a pa y x), (paste_item target b pb y x).
  destruct (source_of target a pa) as [pxa|ea], (source_of target b pb) as [pxb|eb];
    try reflexivity;
    destruct (inside (region target a pa) y x), (inside (region target b pb) y x);
    try reflexivity; lia.
Qed.

(** X22. The outline of [paste] with [debug] touches the one-pixel frame
    of the region only: every pixel that is not on the frame holds what
    [paste] without the outline leaves there. *)
Theorem paste_outline_frame (target : uint_array) (img : ndarray Q) (pos : vec2 Q)
    (y x : nat)
    (Hoff : on_frame (region target img pos) y x = false) :
  item (data (paste target img pos true).1) y x
  = item (data (paste target img pos false).1) y x.
Proof.
  rewrite !paste_run.
  destruct (source_of target img pos) as [px|e]; [|reflexivity].
  cbv zeta. cbn [fst]. apply outline_frame_only. exact Hoff.
Qed.

Context {laws : LibraryLaws L}.

(** [convert] refuses the source exactly when the region is empty. *)
Lemma source_of_region (target : uint_array) (img : ndarray Q) (pos : vec2 Q) :
  (wh (region target img pos) = 0%nat \/ ww (region target img pos) = 0%nat ->
     source_of target img pos = Raise zero_size_error) /\
  ((0 < wh (region target img pos))%nat /\ (0 < ww (region target img pos))%nat ->
     exists px, source_of target img pos = Ok px).
Proof.
  unfold source_of.
  pose proof (slice_of_region target img pos) as Hv.
  pose proof (clip_to_mosaic_spec img (Qtrunc pos.1) (Qtrunc pos.2)) as Hclip.
  destruct (clip_to_mosaic img (Qtrunc pos.1) (Qtrunc pos.2)) as [[img' yi'] xi'].
  destruct Hclip as (Hyi & Hxi & _).
  assert (Hyi' : 0 <= yi') by (clear - Hyi; lia).
  assert (Hxi' : 0 <= xi') by (clear - Hxi; lia).
  destruct (composite_spec target img' yi' xi'
              (pos.1 - inject_Z (Qtrunc pos.1), pos.2 - inject_Z (Qtrunc pos.2))%Q
              Hyi' Hxi') as [_ Hcomp].
  cbv zeta in Hcomp. rewrite composite_unfold, Hv in Hcomp.
  destruct (dtype_convert _ (dtype target)) as [px|e]; split.
  - intros Hempty.
    replace ((wh (region target img pos) =? 0)%nat ||
             (ww (region target img pos) =? 0)%nat) with true in Hcomp
      by (symmetry; apply orb_true_iff; rewrite !Nat.eqb_eq; exact Hempty).
    apply (f_equal snd) in Hcomp. discriminate Hcomp.
  - intros _. exists px. reflexivity.
  - intros Hempty.
    replace ((wh (region target img pos) =? 0)%nat ||
             (ww (region target img pos) =? 0)%nat) with true in Hcomp
      by (symmetry; apply orb_true_iff; rewrite !Nat.eqb_eq; exact Hempty).
    apply (f_equal snd) in Hcomp. cbn [snd] in Hcomp.
    injection Hcomp as ->. reflexivity.
  - intros [Hh Hw].
    replace (wh (region target img pos) =? 0)%nat with false in Hcomp
      by (symmetry; apply Nat.eqb_neq; lia).
    replace (ww (region target img pos) =? 0)%nat with false in Hcomp
      by (symmetry; apply Nat.eqb_neq; lia).
    apply (f_equal snd) in Hcomp. discriminate Hcomp.
Qed.

(** X21. [paste] returns exactly when the pasted region is not empty.
    When the region is empty (the position lies at or beyond the far edge
    of the canvas, or the whole source lies before its near edge),
    [convert] raises its [ValueError] on the empty source, with or without
    [debug], and every pixel of the canvas is as it was; the outline is
    not reached, and [paste] never raises another exception. *)
Theorem paste_empty_region (target : uint_array) (img : ndarray Q) (pos : vec2 Q)
    (debug : bool) :
  (wh (region target img pos) = 0%nat \/ ww (region target img pos) = 0%nat ->
     (paste target img pos debug).2
     = Raise (ValueError
         "zero-size array to reduction operation minimum which has no identity") /\
     forall y x,
       item (data (paste target img pos debug).1) y x = item (data target) y x) /\
  ((0 < wh (region target img pos))%nat /\ (0 < ww (region target img pos))%nat ->
     (paste target img pos debug).2 = Ok tt).
Proof.
  destruct (source_of_region target img pos) as [Hempty Hfull].
  rewrite paste_run. split.
  - intros H. rewrite (Hempty H). split; reflexivity.
  - intros H. destruct (Hfull H) as [px ->]. cbv zeta.
    destruct debug; [|reflexivity].
    apply outline_returns; lia.
Qed.

End WithLibrary.

(** X23. The integer part and the fraction that [paste] splits a position
    into add up to the position; the fraction lies strictly between -1 and
    1, and neither part has the sign opposite to the coordinate. *)
Theorem split_position_parts (pos : vec2 Q) :
  let pos_f := (split_position pos).1 in
  let pos_i := (split_position pos).2 in
  (pos_f.1 + inject_Z pos_i.1 == pos.1 /\ pos_f.2 + inject_Z pos_i.2 == pos.2)%Q /\
  (-1 < pos_f.1 /\ pos_f.1 < 1 /\ -1 < pos_f.2 /\ pos_f.2 < 1)%Q /\
  ((0 <= pos.1)%Q -> (0 <= pos_f.1)%Q /\ 0 <= pos_i.1) /\
  ((pos.1 <= 0)%Q -> (pos_f.1 <= 0)%Q /\ pos_i.1 <= 0) /\
  ((0 <= pos.2)%Q -> (0 <= pos_f.2)%Q /\ 0 <= pos_i.2) /\
  ((pos.2 <= 0)%Q -> (pos_f.2 <= 0)%Q /\ pos_i.2 <= 0).
Proof.
  assert (Hq : forall q : Q,
            ((modf q).1 + inject_Z (Qtrunc (modf q).2) == q)%Q /\
            (-1 < (modf q).1 /\ (modf q).1 < 1)%Q /\
            ((0 <= q)%Q -> (0 <= (modf q).1)%Q /\ 0 <= Qtrunc (modf q).2) /\
            ((q <= 0)%Q -> ((modf q).1 <= 0)%Q /\ Qtrunc (modf q).2 <= 0)).
  { intros q. cbn [modf fst snd]. rewrite Qtrunc_inject.
    split; [ring|]. split; [|split].
    - destruct (Qlt_le_dec q 0) as [Hn|Hp].
      + destruct (modf_nonpos q) as [H1 H2]; [lra|]. cbn [modf fst] in H1, H2.
        split; lra.
      + destruct (modf_nonneg q Hp) as [H1 H2]. cbn [modf fst] in H1, H2.
        split; lra.
    - intros Hp. split; [apply (modf_nonneg q Hp)|].
      rewrite (Qtrunc_nonneg q Hp). change 0 with (Qfloor 0).
      apply Qfloor_resp_le, Hp.
    - intros Hn. split; [apply (modf_nonpos q Hn)|].
      rewrite (Qtrunc_nonpos q Hn). change 0 with (Qceiling 0).
      apply Qceiling_resp_le, Hn. }
  intros pos_f pos_i. subst pos_f pos_i.
  unfold split_position, vmap. cbn [fst snd].
  destruct (Hq pos.1) as (A1 & B1 & C1 & D1), (Hq pos.2) as (A2 & B2 & C2 & D2).
  split; [split; assumption|]. split; [tauto|]. tauto.
Qed.

Lemma paste_empty_region_witness :
  LibraryLaws (Toy.library Toy.near) /\
  (wh (region PasteExamples.canvas0 PasteExamples.img0 (5, 0)%Q) = 0%nat \/
   ww (region PasteExamples.canvas0 PasteExamples.img0 (5, 0)%Q) = 0%nat) /\
  (paste (H := Toy.library Toy.near)
     PasteExamples.canvas0 PasteExamples.img0 (5, 0)%Q true).2
  = Raise (ValueError
      "zero-size array to reduction operation minimum which has no identity") /\
  (paste (H := Toy.library Toy.near)
     PasteExamples.canvas0 PasteExamples.img0 (5, 0)%Q false).2
  = Raise (ValueError
      "zero-size array to reduction operation minimum which has no identity") /\
  (paste (H := Toy.library Toy.near)
     PasteExamples.canvas0 PasteExamples.img0 PasteExamples.pos0 true).2 = Ok tt.
Proof.
  assert (H : wh (region PasteExamples.canvas0 PasteExamples.img0 (5, 0)%Q) = 0%nat \/
              ww (region PasteExamples.canvas0 PasteExamples.img0 (5, 0)%Q) = 0%nat)
    by (left; reflexivity).
  split; [apply Toy.library_laws|]. split; [exact H|].
  split; [|split].
  - exact (proj1 (proj1 (paste_empty_region (laws := Toy.library_laws Toy.near)
                           PasteExamples.canvas0 PasteExamples.img0 (5, 0)%Q true) H)).
  - exact (proj1 (proj1 (paste_empty_region (laws := Toy.library_laws Toy.near)
                           PasteExamples.canvas0 PasteExamples.img0 (5, 0)%Q false) H)).
  - apply (paste_empty_region (laws := Toy.library_laws Toy.near)
             PasteExamples.canvas0 PasteExamples.img0 PasteExamples.pos0 true).
    split; vm_compute; lia.
Defined.

Lemma paste_outline_frame_witness :
  on_frame (region PasteExamples.bright PasteExamples.dark (0, 0)%Q) 1 1 = false /\
  item (data (paste (H := Toy.library Toy.near)
                PasteExamples.bright PasteExamples.dark (0, 0)%Q true).1) 1 1
  = item (data (paste (H := Toy.library Toy.near)
                  PasteExamples.bright PasteExamples.dark (0, 0)%Q false).1) 1 1.
Proof.
  split; [reflexivity|].
  apply (paste_outline_frame (L := Toy.library Toy.near)). reflexivity.
Defined.

Lemma paste_in_range_witness :
  LibraryLaws (Toy.library Toy.near) /\
  in_range PasteExamples.canvas0 /\
  in_range (paste (H := Toy.library Toy.near)
              PasteExamples.canvas0 PasteExamples.img0 PasteExamples.pos0 true).1.
Proof.
  assert (H : in_range PasteExamples.canvas0)
    by (intros y x _ _; vm_compute; split; discriminate).
  split; [apply Toy.library_laws|]. split; [exact H|].
  exact (paste_in_range (laws := Toy.library_laws Toy.near)
           PasteExamples.canvas0 PasteExamples.img0 PasteExamples.pos0 true H).
Defined.

End PasteMore.
